(** * hosttech_dns: WSDL value codec, response parser and record reconciliation

    A shallow embedding of [library/hosttech_dns.py] and of the result
    construction of [library/hosttech_dns_record_facts.py].

    Conventions of the embedding:
    - Python exceptions and [module.fail_json] are values of [result];
      a function that mutates its argument returns the mutated object.
    - A Python [str] is a [string] whose characters are read as the code
      points below 256, with the behaviour of Python 3.  Integers are
      unbounded and are printed in full, and the depth of recursion is not
      limited.
    - An lxml element is a [Node]: tag, namespace declarations, attributes,
      text and element children.  Comments and processing instructions are
      not represented.  The prefixes visible at an element (lxml's [nsmap])
      are its own declarations over those of its ancestors, which the
      functions take as [scope].  An element that is written to is the root
      of its document.  lxml refuses text with control characters and tags
      that are not names, with a [ValueError]. *)

From Stdlib Require Import ZArith String Ascii DecimalString DecimalZ DecimalPos Decimal.
From stdpp Require Import gmap strings list.

Set Warnings "-register-all".

Open Scope string_scope.
Open Scope Z_scope.
Open Scope list_scope.

(** ** Exceptions and results *)

Inductive coding_cause :=
  | CannotEncode | NoTypeTag | NoNamespace | InvalidBoolean | UnknownXsdType
  | InvalidChildTag | NoKey | NoValue | UnknownTypeNamespace | CannotInterpret.

Inductive exn :=
  | WSDLError (origin message : string)
  | WSDLCodingException (cause : coding_cause)
  | HostTechAPIError
  | HostTechAPIAuthError
  | ValueError
  | TypeError
  | KeyError (key : string)
  | FailJson (msg : string).

Inductive result (A : Type) :=
  | Ok (a : A)
  | Raise (e : exn).
Arguments Ok {A} a.
Arguments Raise {A} e.

Definition bind {A B} (r : result A) (k : A → result B) : result B :=
  match r with
  | Ok a => k a
  | Raise e => Raise e
  end.

Notation "'do' x <- e ; k" := (bind e (fun x => k))
  (at level 10, x pattern, e at level 100, k at level 200).

Definition is_Ok {A} (r : result A) : bool :=
  match r with Ok _ => true | Raise _ => false end.

(** ** Python strings and integers *)

Module Py.

(** The white space that [int()] skips at both ends of a string, on code
    points below 256: tab to carriage return, the space, U+0085 and
    U+00A0.  (The separators U+001C to U+001F are white space for
    [str.isspace], but [int()] refuses them.) *)
Definition int_space (a : ascii) : bool :=
  let n := nat_of_ascii a in
  ((9 <=? n) && (n <=? 13) || (n =? 32) || (n =? 133) || (n =? 160))%nat.

Fixpoint lstrip (s : string) : string :=
  match s with
  | String a s' => if int_space a then lstrip s' else s
  | EmptyString => EmptyString
  end.

Fixpoint rstrip (s : string) : string :=
  match s with
  | String a s' =>
      match rstrip s' with
      | EmptyString => if int_space a then EmptyString else String a EmptyString
      | r => String a r
      end
  | EmptyString => EmptyString
  end.

Definition strip (s : string) : string := rstrip (lstrip s).

Definition digit_val (a : ascii) : option Z :=
  let n := nat_of_ascii a in
  if ((48 <=? n) && (n <=? 57))%nat then Some (Z.of_nat n - 48) else None.

(** Decimal digits, with single underscores allowed between two digits.
    [prev] tells whether the previous character was a digit. *)
Fixpoint int_digits (s : string) (acc : Z) (prev : bool) : option Z :=
  match s with
  | EmptyString => if prev then Some acc else None
  | String a s' =>
      match digit_val a with
      | Some d => int_digits s' (10 * acc + d) true
      | None =>
          if Ascii.eqb a "_" && prev then int_digits s' acc false else None
      end
  end.

(** [int(s)] for a string: surrounding white space, an optional sign,
    decimal digits.  [None] is Python's [ValueError]. *)
Definition int_of_str (s : string) : option Z :=
  match strip s with
  | String "-" r => Z.opp <$> int_digits r 0 false
  | String "+" r => int_digits r 0 false
  | r => int_digits r 0 false
  end.

(** [str(z)] for an integer. *)
Definition str_of_int (z : Z) : string :=
  NilZero.string_of_int (Z.to_int z).

(** [str(b)] for a boolean. *)
Definition str_of_bool (b : bool) : string :=
  if b then "True" else "False".

(** [s.find(c)] for a one-character needle: [None] is Python's [-1]. *)
Fixpoint find (c : ascii) (s : string) : option nat :=
  match s with
  | EmptyString => None
  | String a s' => if Ascii.eqb a c then Some O else S <$> find c s'
  end.

(** [s[:i]] and [s[i:]] for [0 <= i]. *)
Fixpoint slice_to (i : nat) (s : string) : string :=
  match i, s with
  | S i', String a s' => String a (slice_to i' s')
  | _, _ => EmptyString
  end.

Fixpoint slice_from (i : nat) (s : string) : string :=
  match i, s with
  | S i', String _ s' => slice_from i' s'
  | _, _ => s
  end.

(** [s.split(c, 1)]. *)
Definition split1 (c : ascii) (s : string) : list string :=
  match find c s with
  | None => [s]
  | Some i => [slice_to i s; slice_from (S i) s]
  end.

Fixpoint lower (s : string) : string :=
  match s with
  | EmptyString => EmptyString
  | String a s' =>
      let n := nat_of_ascii a in
      String (if ((65 <=? n) && (n <=? 90)
                  || (192 <=? n) && (n <=? 222) && negb (n =? 215))%nat
              then ascii_of_nat (n + 32) else a)
             (lower s')
  end.

End Py.

(** ** Values carried by the codec *)

(** The Python values [encode_wsdl] is called on.  A [dict] keeps its
    entries in insertion order; [VOther] is any other kind of object. *)
Inductive value :=
  | VNone
  | VStr (s : string)
  | VInt (z : Z)
  | VBool (b : bool)
  | VDict (items : list (value * value))
  | VList (elts : list value)
  | VOther.

Definition isinstance_str (v : value) : bool :=
  match v with VStr _ => true | _ => false end.

(** [bool] is a subclass of [int]. *)
Definition isinstance_int (v : value) : bool :=
  match v with VInt _ | VBool _ => true | _ => false end.

Definition isinstance_bool (v : value) : bool :=
  match v with VBool _ => true | _ => false end.

Definition is_None (v : value) : bool :=
  match v with VNone => true | _ => false end.

(** [v is True]. *)
Definition is_True (v : value) : bool :=
  match v with VBool true => true | _ => false end.

(** [str(v)] for the values the codec writes as text. *)
Definition py_str (v : value) : string :=
  match v with
  | VStr s => s
  | VInt z => Py.str_of_int z
  | VBool b => Py.str_of_bool b
  | _ => ""
  end.

Definition truthy (v : value) : bool :=
  match v with VBool b => b | _ => false end.

(** Keys of a [dict]: hashable values, compared with [==]. *)
Definition hashable (v : value) : bool :=
  match v with VDict _ | VList _ => false | _ => true end.

Definition int_val (v : value) : option Z :=
  match v with
  | VInt z => Some z
  | VBool b => Some (if b then 1 else 0)
  | _ => None
  end.

Definition key_eqb (a b : value) : bool :=
  match a, b with
  | VNone, VNone => true
  | VStr s, VStr t => String.eqb s t
  | VOther, VOther => true
  | _, _ =>
      match int_val a, int_val b with
      | Some x, Some y => Z.eqb x y
      | _, _ => false
      end
  end.

(** [d[k] = v]: an existing entry keeps its place and its key. *)
Fixpoint dict_set (k v : value) (d : list (value * value)) : list (value * value) :=
  match d with
  | [] => [(k, v)]
  | (k', v') :: d' =>
      if key_eqb k' k then (k', v) :: d' else (k', v') :: dict_set k v d'
  end.

(** ** Elements *)

Record QName := { namespace : option string; localname : string }.

Global Instance QName_eq_dec : EqDecision QName.
Proof. solve_decision. Defined.

Global Instance QName_countable : Countable QName.
Proof.
  refine (inj_countable' (fun q => (namespace q, localname q))
            (fun p => {| namespace := p.1; localname := p.2 |}) _).
  by intros [].
Defined.

Definition plain (name : string) : QName :=
  {| namespace := None; localname := name |}.

Definition qualified (ns name : string) : QName :=
  {| namespace := Some ns; localname := name |}.

Inductive Node :=
  Element {
    tag : QName;
    nsdecl : gmap string string;
    attrib : gmap QName string;
    text : option string;
    children : list Node
  }.

Module etree.

(** The empty element with the tag [t] and no declaration: what
    [lxml.etree.Element] creates for a plain tag that it accepts, as the
    tags are that the code writes as literals (see [Element] below, also
    for qualified tags). *)
Definition new (t : QName) : Node :=
  {| tag := t; nsdecl := ∅; attrib := ∅; text := None; children := [] |}.

(** The characters that lxml accepts in a string: tab, line feed, carriage
    return, and every character from the space on.  For any other one,
    [ValueError: All strings must be XML compatible] is raised. *)
Definition xml_char (a : ascii) : bool :=
  let n := nat_of_ascii a in
  ((n =? 9) || (n =? 10) || (n =? 13) || (32 <=? n))%nat.

Fixpoint xml_text (s : string) : bool :=
  match s with
  | EmptyString => true
  | String a s' => xml_char a && xml_text s'
  end.

(** The local names that lxml accepts as a tag: the names of XML without a
    colon, here on code points below 256. *)
Definition name_start_char (a : ascii) : bool :=
  let n := nat_of_ascii a in
  ((65 <=? n) && (n <=? 90) || (n =? 95) || (97 <=? n) && (n <=? 122)
   || (192 <=? n) && (n <=? 214) || (216 <=? n) && (n <=? 246)
   || (248 <=? n))%nat.

Definition name_char (a : ascii) : bool :=
  let n := nat_of_ascii a in
  (name_start_char a || (n =? 45) || (n =? 46) || (48 <=? n) && (n <=? 57)
   || (n =? 183))%nat.

Fixpoint name_chars (s : string) : bool :=
  match s with
  | EmptyString => true
  | String a s' => name_char a && name_chars s'
  end.

Definition valid_name (s : string) : bool :=
  match s with
  | EmptyString => false
  | String a s' => name_start_char a && name_chars s'
  end.

(** lxml's reading of a tag given as text, [{namespace}name] or [name]. *)
Definition _getNsTag (tag : string) : result (option string * string) :=
  if negb (xml_text tag) then Raise ValueError
  else
    match tag with
    | EmptyString => Raise ValueError
    | String "{" rest =>
        match Py.find "}" rest with
        | None => Raise ValueError
        | Some i =>
            let name := Py.slice_from (S i) rest in
            if String.eqb name "" then Raise ValueError
            else Ok (match i with O => None | _ => Some (Py.slice_to i rest) end, name)
        end
    | _ => Ok (None, tag)
    end.

(** The prefixes that lxml generates: [ns0], [ns1], ... *)
Definition generated (k : nat) : string :=
  "ns" +:+ NilZero.string_of_uint (Nat.to_uint k).

(** The first generated prefix, from [k] on, that [used] does not hold. *)
Fixpoint first_free (used : gmap string string) (k fuel : nat) : string :=
  match fuel with
  | O => generated k
  | S fuel' =>
      if bool_decide (is_Some (used !! generated k)) then first_free used (S k) fuel'
      else generated k
  end.

(** The prefix lxml gives to a namespace that is not declared yet: the one
    of its table of well-known prefixes if it is free, else the first free
    generated one. *)
Definition new_prefix (used : gmap string string) (ns : string) : string :=
  let known :=
    if String.eqb ns "http://www.w3.org/2001/XMLSchema" then Some "xs"
    else if String.eqb ns "http://www.w3.org/2001/XMLSchema-instance" then Some "xsi"
    else None in
  match known with
  | Some p => if bool_decide (is_Some (used !! p)) then first_free used 0 (size used) else p
  | None => first_free used 0 (size used)
  end.

(** The prefix under which the element declares [ns], if it does. *)
Definition prefix_of (used : gmap string string) (ns : string) : option string :=
  fst <$> List.find (fun pn => String.eqb pn.2 ns) (map_to_list used).

(** The prefix that stands for [ns] at the element, which is taken to be
    the root of its document: the declared one, else a new one. *)
Definition prefix_for (node : Node) (ns : string) : string :=
  match prefix_of (nsdecl node) ns with
  | Some p => p
  | None => new_prefix (nsdecl node) ns
  end.

(** The element with [ns] declared, under the prefix [prefix_for]. *)
Definition declare (ns : string) (node : Node) : Node :=
  {| tag := tag node; nsdecl := <[prefix_for node ns := ns]> (nsdecl node);
     attrib := attrib node; text := text node; children := children node |}.

(** [node.set(key, value)]. *)
Definition set (node : Node) (key : QName) (val : string) : Node :=
  let node := match namespace key with
              | Some ns => declare ns node
              | None => node
              end in
  {| tag := tag node; nsdecl := nsdecl node;
     attrib := <[key := val]> (attrib node);
     text := text node; children := children node |}.

(** [node.set(key, QName(ns, name))]: the value is written as
    [prefix:name], with the prefix declared on the element. *)
Definition set_qname (node : Node) (key : QName) (ns name : string) : Node :=
  set (declare ns node) key (prefix_for node ns +:+ ":" +:+ name).

Definition get (node : Node) (key : QName) : option string :=
  attrib node !! key.

(** The element with the text [s], whatever [s] is: used to write down
    documents. *)
Definition with_text (node : Node) (s : string) : Node :=
  {| tag := tag node; nsdecl := nsdecl node; attrib := attrib node;
     text := Some s; children := children node |}.

(** [node.text = s]: lxml refuses a string with a character that XML does
    not have. *)
Definition set_text (node : Node) (s : string) : result Node :=
  if xml_text s then Ok (with_text node s) else Raise ValueError.

(** [node.append(child)].  (lxml also drops, in the appended tree, the
    declarations that repeat one in scope at the new place; the prefixes
    visible at the elements stay as they are when both use the same prefix
    for the namespace, as in every tree that this program builds.) *)
Definition append (node child : Node) : Node :=
  {| tag := tag node; nsdecl := nsdecl node; attrib := attrib node;
     text := text node; children := children node ++ [child] |}.

(** [node.nsmap], for an element whose ancestors declare [scope]. *)
Definition nsmap (scope : gmap string string) (node : Node) : gmap string string :=
  nsdecl node ∪ scope.

(** [node.find(name)]: the first child with that tag. *)
Definition find (node : Node) (name : QName) : option Node :=
  List.find (fun c => bool_decide (tag c = name)) (children node).

Section names.
(** lxml's test of a namespace URI (libxml2's URI parser). *)
Variable valid_uri : string → bool.

(** [lxml.etree.Element(tag)] for a tag given as text. *)
Definition Element (tag : string) : result Node :=
  do (ns, name) <- _getNsTag tag;
  if negb (valid_name name) then Raise ValueError
  else
    match ns with
    | None => Ok (new (plain name))
    | Some ns =>
        if valid_uri ns then Ok (declare ns (new (qualified ns name)))
        else Raise ValueError
    end.

(** [lxml.etree.QName(ns, name).text]. *)
Definition QName_text (ns name : string) : result string :=
  do (ns', name') <- _getNsTag ns;
  let ns := default name' ns' in
  if negb (valid_name name) then Raise ValueError
  else Ok ("{" +:+ ns +:+ "}" +:+ name).
End names.

End etree.

(** ** The value codec: [encode_wsdl] and [decode_wsdl] *)

Definition _NAMESPACE_XSI := "http://www.w3.org/2001/XMLSchema-instance".
Definition _NAMESPACE_XSD := "http://www.w3.org/2001/XMLSchema".
Definition _NAMESPACE_XML_SOAP := "http://xml.apache.org/xml-soap".
Definition _NAMESPACE_XML_SOAP_ENCODING := "http://schemas.xmlsoap.org/soap/encoding/".

Definition xsi_nil : QName := qualified _NAMESPACE_XSI "nil".
Definition xsi_type : QName := qualified _NAMESPACE_XSI "type".

Definition _split_text_namespace (scope : gmap string string) (node : Node)
    (text : string) : string * option string :=
  match Py.find ":" text with
  | None => (text, None)
  | Some i =>
      let ns := etree.nsmap scope node !! Py.slice_to i text in
      (Py.slice_from (S i) text, ns)
  end.

Definition _set_type (node : Node) (namespace type : string) : Node :=
  etree.set_qname node xsi_type namespace type.

Section encode_loops.
Variable encode : Node → value → result Node.

(** The loop over [value.items()] of a [dict]. *)
Fixpoint encode_items (node : Node) (items : list (value * value)) : result Node :=
  match items with
  | [] => Ok node
  | (key, val) :: rest =>
      let child := etree.new (plain "item") in
      do ke <- encode (etree.new (plain "key")) key;
      let child := etree.append child ke in
      do ve <- encode (etree.new (plain "value")) val;
      let child := etree.append child ve in
      encode_items (etree.append node child) rest
  end.

(** The loop over the elements of a [list]. *)
Fixpoint encode_elts (node : Node) (elts : list value) : result Node :=
  match elts with
  | [] => Ok node
  | elt :: rest =>
      do child <- encode (etree.new (plain "item")) elt;
      encode_elts (etree.append node child) rest
  end.
End encode_loops.

Fixpoint encode_wsdl (node : Node) (value : value) {struct value} : result Node :=
  if is_None value then
    Ok (etree.set node xsi_nil "true")
  else if isinstance_str value then
    etree.set_text (_set_type node _NAMESPACE_XSD "string") (py_str value)
  else if isinstance_int value then
    etree.set_text (_set_type node _NAMESPACE_XSD "int") (py_str value)
  else if isinstance_bool value then
    etree.set_text (_set_type node _NAMESPACE_XSD "boolean")
      (if truthy value then "true" else "false")
  else
    match value with
    | VDict items =>
        encode_items encode_wsdl (_set_type node _NAMESPACE_XML_SOAP "Map") items
    | VList elts =>
        encode_elts encode_wsdl
          (_set_type node _NAMESPACE_XML_SOAP_ENCODING "Array") elts
    | _ => Raise (WSDLCodingException CannotEncode)
    end.

(** [int(node.text)]: a missing text is a [TypeError]. *)
Definition py_int_text (t : option string) : result value :=
  match t with
  | None => Raise TypeError
  | Some s =>
      match Py.int_of_str s with
      | Some z => Ok (VInt z)
      | None => Raise ValueError
      end
  end.

(** [node.text] as a value. *)
Definition text_value (t : option string) : value :=
  match t with
  | None => VNone
  | Some s => VStr s
  end.

Section decode_loops.
Variable decode : gmap string string → Node → result value.

(** [decode_wsdl(item.find(name))], with [missing] raised when there is
    no such child. *)
Fixpoint decode_found (scope : gmap string string) (name : QName)
    (missing : coding_cause) (cs : list Node) : result value :=
  match cs with
  | [] => Raise (WSDLCodingException missing)
  | c :: cs' =>
      if bool_decide (tag c = name) then decode scope c
      else decode_found scope name missing cs'
  end.

(** The loop over the children of a [Map] element; [scope] is the
    [nsmap] of that element. *)
Fixpoint decode_map (scope : gmap string string) (items : list Node)
    (res : list (value * value)) : result value :=
  match items with
  | [] => Ok (VDict res)
  | item :: rest =>
      if negb (bool_decide (tag item = plain "item")) then
        Raise (WSDLCodingException InvalidChildTag)
      else
        let inner := etree.nsmap scope item in
        do key <- decode_found inner (plain "key") NoKey (children item);
        do value <- decode_found inner (plain "value") NoValue (children item);
        if hashable key then decode_map scope rest (dict_set key value res)
        else Raise TypeError
  end.

(** The loop over the children of an [Array] element. *)
Fixpoint decode_array (scope : gmap string string) (items : list Node)
    (res : list value) : result value :=
  match items with
  | [] => Ok (VList res)
  | item :: rest =>
      if negb (bool_decide (tag item = plain "item")) then
        Raise (WSDLCodingException InvalidChildTag)
      else
        do elt <- decode scope item;
        decode_array scope rest (res ++ [elt])
  end.
End decode_loops.

Fixpoint decode_wsdl (scope : gmap string string) (node : Node) {struct node}
    : result value :=
  let nil := etree.get node xsi_nil in
  if bool_decide (nil = Some "true") then Ok VNone else
  match etree.get node xsi_type with
  | None => Raise (WSDLCodingException NoTypeTag)
  | Some type_with_ns =>
      let '(type, ns) := _split_text_namespace scope node type_with_ns in
      match ns with
      | None => Raise (WSDLCodingException NoNamespace)
      | Some ns =>
          if String.eqb ns _NAMESPACE_XSD then
            if String.eqb type "boolean" then
              if bool_decide (text node = Some "true") then Ok (VBool true)
              else if bool_decide (text node = Some "false") then Ok (VBool false)
              else Raise (WSDLCodingException InvalidBoolean)
            else if String.eqb type "int" then py_int_text (text node)
            else if String.eqb type "string" then Ok (text_value (text node))
            else Raise (WSDLCodingException UnknownXsdType)
          else if String.eqb ns _NAMESPACE_XML_SOAP then
            if String.eqb type "Map" then
              decode_map decode_wsdl (etree.nsmap scope node) (children node) []
            else Raise (WSDLCodingException UnknownXsdType)
          else if String.eqb ns _NAMESPACE_XML_SOAP_ENCODING then
            if String.eqb type "Array" then
              decode_array decode_wsdl (etree.nsmap scope node) (children node) []
            else Raise (WSDLCodingException UnknownXsdType)
          else Raise (WSDLCodingException UnknownTypeNamespace)
      end
  end.

(** ** Walking a document *)

(** [node.iter()]: the element and its descendants in document order, each
    with the declarations of its ancestors. *)
Fixpoint iter_all (scope : gmap string string) (node : Node) {struct node}
    : list (gmap string string * Node) :=
  (scope, node) :: flat_map (iter_all (etree.nsmap scope node)) (children node).

(** [node.iter(name)]. *)
Definition iter (scope : gmap string string) (node : Node) (name : QName)
    : list (gmap string string * Node) :=
  filter (fun sn => tag sn.2 = name) (iter_all scope node).

(** ** The response parser *)

Section WSDL.
(** [lxml.etree.tostring(node).decode('utf-8')]. *)
Variable tostring : Node → string.

Record Parser := {
  _api : string;
  _root : Node;
  _header : gmap string value;
  _body : gmap string value
}.

Definition _main_ns := "http://schemas.xmlsoap.org/soap/envelope/".

(** The inner loop of [Parser._parse]: [for res in child.iter('return')]. *)
Fixpoint _parse_returns (name : string) (rets : list (gmap string string * Node))
    (res : gmap string value) : result (gmap string value) :=
  match rets with
  | [] => Ok res
  | (scope, ret) :: rest =>
      do v <- decode_wsdl scope ret;
      _parse_returns name rest (<[name := v]> res)
  end.

(** The outer loop of [Parser._parse]: [for child in node]. *)
Fixpoint _parse_children (api : string) (scope : gmap string string)
    (cs : list Node) (res : gmap string value) : result (gmap string value) :=
  match cs with
  | [] => Ok res
  | child :: rest =>
      let tag := tag child in
      if negb (bool_decide (namespace tag = Some api)) then
        Raise (WSDLCodingException CannotInterpret)
      else
        do res <- _parse_returns (localname tag) (iter scope child (plain "return")) res;
        _parse_children api scope rest res
  end.

Definition _parse (api : string) (res : gmap string value)
    (node : gmap string string * Node) : result (gmap string value) :=
  _parse_children api (etree.nsmap node.1 node.2) (children node.2) res.

(** [for section in root.iter(...): self._parse(result, section, where)]. *)
Fixpoint _parse_sections (api : string) (sections : list (gmap string string * Node))
    (res : gmap string value) : result (gmap string value) :=
  match sections with
  | [] => Ok res
  | section :: rest =>
      do res <- _parse api res section;
      _parse_sections api rest res
  end.

Definition text_nonempty (node : Node) : option string :=
  match text node with
  | Some s => if String.eqb s "" then None else Some s
  | None => None
  end.

(** The body of the loop over the fault elements: it always raises. *)
Definition raise_fault (fault : gmap string string * Node) : exn :=
  let fault_code := etree.find fault.2 (plain "faultcode") in
  let fault_string := etree.find fault.2 (plain "faultstring") in
  let origin :=
    match fault_code ≫= text_nonempty with
    | Some code_text =>
        let '(code, code_ns) := _split_text_namespace fault.1 fault.2 code_text in
        if bool_decide (code_ns = Some _main_ns) then Py.lower code else "server"
    | None => "server"
    end in
  match fault_string ≫= text_nonempty with
  | Some message => WSDLError origin message
  | None => WSDLError origin (tostring fault.2)
  end.

(** [Parser.__init__]. *)
Definition Parser_init (api : string) (root : Node) : result Parser :=
  match iter ∅ root (qualified _main_ns "Fault") with
  | fault :: _ => Raise (raise_fault fault)
  | [] =>
      do header <- _parse_sections api (iter ∅ root (qualified _main_ns "Header")) ∅;
      do body <- _parse_sections api (iter ∅ root (qualified _main_ns "Body")) ∅;
      Ok {| _api := api; _root := root; _header := header; _body := body |}
  end.

Definition get_header (p : Parser) (header : string) : result value :=
  match _header p !! header with
  | Some v => Ok v
  | None => Raise (KeyError header)
  end.

Definition get_result (p : Parser) (body : string) : result value :=
  match _body p !! body with
  | Some v => Ok v
  | None => Raise (KeyError body)
  end.

(** [Composer.execute] from the point where the transport has answered
    with status [code] and a payload that parses to [root]. *)
Definition execute (api : string) (code : Z) (payload : string) (root : Node)
    : result Parser :=
  if (code <? 200)%Z || (300 <=? code)%Z then
    do _ <- Parser_init api root;
    Raise (WSDLError "server"
             ("Error " +:+ Py.str_of_int code
              +:+ " while executing WSDL command:" +:+ String "010" payload))
  else Parser_init api root.

(** [HostTechAPI._execute] on that answer. *)
Definition _execute (api : string) (code : Z) (payload : string) (root : Node)
    (result_name : string) (acceptable_types : value → bool) : result value :=
  do p <- execute api code payload root;
  do auth <- get_header p "authenticateResponse";
  if negb (is_True auth) then Raise HostTechAPIAuthError
  else
    do res <- get_result p result_name;
    if acceptable_types res then Ok res else Raise HostTechAPIError.
End WSDL.

(** ** DNS records *)

Module DNSRecord.
Record t := mk {
  id : option Z;
  zone : option Z;
  type : option string;
  prefix : option string;
  target : option string;
  ttl : Z;
  priority : option Z
}.

(** [DNSRecord()]. *)
Definition new : t :=
  {| id := None; zone := None; type := None; prefix := None; target := None;
     ttl := 86400; priority := None |}.

Global Instance eq_dec : EqDecision t.
Proof. solve_decision. Defined.
End DNSRecord.

Abbreviation DNSRecord := DNSRecord.t.

(** ** The module: fetching and reconciling a record set *)

Inductive state := present | absent | get.

Global Instance state_eq_dec : EqDecision state.
Proof. solve_decision. Defined.

(** [module.params] and [module.check_mode]. *)
Record params := {
  state_in : state;
  record_in : string;
  ttl_in : Z;
  type_in : string;
  value_in : list string;
  overwrite_in : bool;
  check_mode : bool
}.

(** A value of a record set: [(priority, target)]. *)
Abbreviation pair_value := (option Z * option string)%type.

(** A Python tuple with one component, as the trailing comma of
    [ttls = {...},] builds. *)
Inductive tuple1 (A : Type) := Tuple1 (x : A).
Arguments Tuple1 {A} x.

(** [len(t)]. *)
Definition len_tuple1 {A} (t : tuple1 A) : nat := 1.

(** [min(s)] for a set of integers. *)
Definition min_set (s : gset Z) : result Z :=
  match elements s with
  | [] => Raise ValueError
  | x :: l => Ok (foldr Z.min x l)
  end.

(** [min] called on the unpacked tuple: the single component is its one
    argument. *)
Definition min_star (t : tuple1 (gset Z)) : result Z :=
  match t with Tuple1 s => min_set s end.

(** The [set] entry of the result of a fetch. *)
Record fetched := {
  f_record : string;
  f_type : string;
  f_ttl : Z;
  f_value : list (option string);
  f_ttls : option (tuple1 (gset Z))
}.

(** What the module ends with, when it ends with [exit_json]. *)
Inductive outcome :=
  | ExitFetched (data : option fetched)
  | ExitUnchanged
  | ExitChanged (to_delete to_change to_create : list DNSRecord).

(** [record.prefix == prefix and record.type == type_in]. *)
Definition selected (prefix : option string) (type_in : string) (record : DNSRecord) : Prop :=
  DNSRecord.prefix record = prefix ∧ DNSRecord.type record = Some type_in.

Global Instance selected_dec prefix type_in record :
  Decision (selected prefix type_in record).
Proof. unfold selected. apply _. Defined.

(** [hosttech_dns.run_module], state [get]. *)
Definition process_get (p : params) (records : list DNSRecord) : result (option fetched) :=
  match records with
  | [] => Ok None
  | _ =>
      let ttls := Tuple1 (list_to_set (DNSRecord.ttl <$> records) : gset Z) in
      do ttl <- min_star ttls;
      let data := {| f_record := record_in p; f_type := type_in p; f_ttl := ttl;
                     f_value := DNSRecord.target <$> records; f_ttls := None |} in
      if (1 <? len_tuple1 ttls)%nat then
        Ok (Some {| f_record := f_record data; f_type := f_type data;
                    f_ttl := f_ttl data; f_value := f_value data;
                    f_ttls := Some ttls |})
      else Ok (Some data)
  end.

(** [hosttech_dns_record_facts.run_module], from the selected records on:
    [set([...]),] builds the same tuple, and [min] is called on it
    unpacked in the same way. *)
Definition fetch_result (p : params) (records : list DNSRecord) : result (option fetched) :=
  match records with
  | [] => Ok None
  | _ =>
      let ttls := Tuple1 (list_to_set (DNSRecord.ttl <$> records) : gset Z) in
      do ttl <- min_star ttls;
      let data := {| f_record := record_in p; f_type := type_in p; f_ttl := ttl;
                     f_value := DNSRecord.target <$> records; f_ttls := None |} in
      if (1 <? len_tuple1 ttls)%nat then
        Ok (Some {| f_record := f_record data; f_type := f_type data;
                    f_ttl := f_ttl data; f_value := f_value data;
                    f_ttls := Some ttls |})
      else Ok (Some data)
  end.

(** [type_in in {'PTR', 'MX'}]. *)
Definition has_priority (type_in : string) : bool :=
  String.eqb type_in "PTR" || String.eqb type_in "MX".

(** One turn of the loop that parses the values. *)
Definition parse_value (type_in : string) (value : string) : result pair_value :=
  if has_priority type_in then
    match Py.split1 " " value with
    | [priority; value] =>
        match Py.int_of_str priority with
        | Some n => Ok (Some n, Some value)
        | None => Raise ValueError
        end
    | _ => Raise ValueError
    end
  else Ok (None, Some value).

Fixpoint parse_values (type_in : string) (value_in : list string) (values : list pair_value)
    : result (list pair_value) :=
  match value_in with
  | [] => Ok values
  | value :: rest =>
      do v <- parse_value type_in value;
      parse_values type_in rest (values ++ [v])
  end.

(** [values.remove(val)]: the first equal entry goes. *)
Fixpoint list_remove_first (val : pair_value) (values : list pair_value) : list pair_value :=
  match values with
  | [] => []
  | v :: rest => if bool_decide (v = val) then rest else v :: list_remove_first val rest
  end.

(** The loop that compares the records with the values. *)
Fixpoint compare_records (ttl_in : Z) (records : list DNSRecord)
    (values : list pair_value) (mismatch : bool) (mismatch_records : list DNSRecord)
    : list pair_value * bool * list DNSRecord :=
  match records with
  | [] => (values, mismatch, mismatch_records)
  | record :: rest =>
      if negb (bool_decide (DNSRecord.ttl record = ttl_in)) then
        compare_records ttl_in rest values true (mismatch_records ++ [record])
      else
        let val := (DNSRecord.priority record, DNSRecord.target record) in
        if bool_decide (val ∈ values) then
          compare_records ttl_in rest (list_remove_first val values) mismatch mismatch_records
        else
          compare_records ttl_in rest values true (mismatch_records ++ [record])
  end.

(** [l.pop()] on a list that is not empty. *)
Definition pop {A} (l : list A) : option (A * list A) :=
  match reverse l with
  | [] => None
  | x :: r => Some (x, reverse r)
  end.

(** The five assignments that turn a record into the wanted one. *)
Definition assign (record : DNSRecord) (prefix : option string) (type_in : string)
    (ttl_in : Z) (v : pair_value) : DNSRecord :=
  {| DNSRecord.id := DNSRecord.id record; DNSRecord.zone := DNSRecord.zone record;
     DNSRecord.type := Some type_in; DNSRecord.prefix := prefix;
     DNSRecord.target := v.2; DNSRecord.ttl := ttl_in; DNSRecord.priority := v.1 |}.

(** The loop [for priority, target in values] of state [present]. *)
Fixpoint place_values (prefix : option string) (type_in : string) (ttl_in : Z)
    (values : list pair_value) (to_delete to_change to_create : list DNSRecord)
    : list DNSRecord * list DNSRecord * list DNSRecord :=
  match values with
  | [] => (to_delete, to_change, to_create)
  | v :: rest =>
      match pop to_delete with
      | Some (record, to_delete) =>
          place_values prefix type_in ttl_in rest to_delete
            (to_change ++ [assign record prefix type_in ttl_in v]) to_create
      | None =>
          place_values prefix type_in ttl_in rest to_delete to_change
            (to_create ++ [assign DNSRecord.new prefix type_in ttl_in v])
      end
  end.

Definition conflict_msg :=
  "Record already exists with different value. Set 'overwrite' to replace it".

(** The end of [run_module]: is there nothing to change? *)
Definition finish (to_delete to_change to_create : list DNSRecord) : result outcome :=
  match to_create, to_delete, to_change with
  | [], [], [] => Ok ExitUnchanged
  | _, _, _ => Ok (ExitChanged to_delete to_change to_create)
  end.

(** [run_module] from the selected records of the zone on, for the states
    [present] and [absent], with the values already parsed. *)
Definition reconcile (p : params) (prefix : option string) (records : list DNSRecord)
    (values : list pair_value) : result outcome :=
  let '(values, mismatch, mismatch_records) :=
    compare_records (ttl_in p) records values false [] in
  let mismatch := match values with _ :: _ => true | [] => mismatch end in
  do (to_delete, to_change, to_create) <-
    (if bool_decide (state_in p = present) then
       do to_delete <-
         (match records with
          | _ :: _ =>
              if mismatch then
                if overwrite_in p then Ok mismatch_records
                else Raise (FailJson conflict_msg)
              else Ok []
          | [] => Ok []
          end);
       Ok (place_values prefix (type_in p) (ttl_in p) values to_delete [] [])
     else Ok ([], [], []));
  let to_delete :=
    if bool_decide (state_in p = absent) then
      if negb mismatch then to_delete ++ records else to_delete
    else to_delete in
  finish to_delete to_change to_create.

(** [run_module] from the records of the zone on. *)
Definition run_module (p : params) (prefix : option string) (zone_records : list DNSRecord)
    : result outcome :=
  let records := filter (selected prefix (type_in p)) zone_records in
  if bool_decide (state_in p = get) then
    do data <- process_get p records;
    Ok (ExitFetched data)
  else
    do values <- parse_values (type_in p) (value_in p) [];
    reconcile p prefix records values.

(** The calls on the remote service that the module makes before it
    exits. *)
Inductive api_call :=
  | delete_record (record : DNSRecord)
  | update_record (record : DNSRecord)
  | add_record (record : DNSRecord).

Definition planned (o : result outcome) : list api_call :=
  match o with
  | Ok (ExitChanged to_delete to_change to_create) =>
      (delete_record <$> to_delete) ++ (update_record <$> to_change)
      ++ (add_record <$> to_create)
  | _ => []
  end.

Definition calls (p : params) (o : result outcome) : list api_call :=
  if check_mode p then [] else planned o.

(** ** What a run leaves on the remote service *)

(** The effect of one call on the records that the service holds for the
    zone.  The service is not part of the module; it is taken to do what the
    calls ask for: [delete_record] removes the record with that [id],
    [update_record] gives the record with that [id] the fields sent, and
    [add_record] adds the record. *)
Definition apply_call (records : list DNSRecord) (c : api_call) : list DNSRecord :=
  match c with
  | delete_record r =>
      filter (fun x => DNSRecord.id x ≠ DNSRecord.id r) records
  | update_record r =>
      (fun x => if bool_decide (DNSRecord.id x = DNSRecord.id r) then r else x) <$> records
  | add_record r => records ++ [r]
  end.

Definition apply_calls (records : list DNSRecord) (cs : list api_call) : list DNSRecord :=
  foldl apply_call records cs.

(** What reconciliation reads of a record. *)
Definition pair_of (r : DNSRecord) : pair_value :=
  (DNSRecord.priority r, DNSRecord.target r).

Definition content (r : DNSRecord) : Z * pair_value :=
  (DNSRecord.ttl r, pair_of r).

(** The records are exactly the wanted ones: every record has the wanted
    ttl and the values of the records are the wanted values, each as often
    as wanted. *)
Definition exact_match (ttl_in : Z) (records : list DNSRecord) (values : list pair_value) : Prop :=
  Forall (fun r => DNSRecord.ttl r = ttl_in) records ∧ pair_of <$> records ≡ₚ values.

(** The three results of the comparison, each on its own. *)
Definition accepts (ttl_in : Z) (values : list pair_value) (r : DNSRecord) : bool :=
  bool_decide (DNSRecord.ttl r = ttl_in) && bool_decide (pair_of r ∈ values).

Fixpoint leftover (ttl_in : Z) (records : list DNSRecord) (values : list pair_value)
    : list pair_value :=
  match records with
  | [] => values
  | r :: rest =>
      if accepts ttl_in values r
      then leftover ttl_in rest (list_remove_first (pair_of r) values)
      else leftover ttl_in rest values
  end.

Fixpoint unmatched (ttl_in : Z) (records : list DNSRecord) (values : list pair_value)
    : list DNSRecord :=
  match records with
  | [] => []
  | r :: rest =>
      if accepts ttl_in values r
      then unmatched ttl_in rest (list_remove_first (pair_of r) values)
      else r :: unmatched ttl_in rest values
  end.

Fixpoint matched (ttl_in : Z) (records : list DNSRecord) (values : list pair_value)
    : list DNSRecord :=
  match records with
  | [] => []
  | r :: rest =>
      if accepts ttl_in values r
      then r :: matched ttl_in rest (list_remove_first (pair_of r) values)
      else matched ttl_in rest values
  end.

(** [mismatch] as the module has it before it decides. *)
Definition mismatch_of (ttl_in : Z) (records : list DNSRecord) (values : list pair_value) : bool :=
  let '(values, mismatch, _) := compare_records ttl_in records values false [] in
  match values with _ :: _ => true | [] => mismatch end.

(** ** Notions used to state the properties *)

(** *** The codec *)

(** The digits [u] read after digits that gave [acc]. *)
Fixpoint uint_value (u : uint) (acc : Z) : Z :=
  match u with
  | Nil => acc
  | D0 u => uint_value u (10 * acc + 0)
  | D1 u => uint_value u (10 * acc + 1)
  | D2 u => uint_value u (10 * acc + 2)
  | D3 u => uint_value u (10 * acc + 3)
  | D4 u => uint_value u (10 * acc + 4)
  | D5 u => uint_value u (10 * acc + 5)
  | D6 u => uint_value u (10 * acc + 6)
  | D7 u => uint_value u (10 * acc + 7)
  | D8 u => uint_value u (10 * acc + 8)
  | D9 u => uint_value u (10 * acc + 9)
  end.

Fixpoint no_space (s : string) : bool :=
  match s with
  | EmptyString => true
  | String a s' => negb (Py.int_space a) && no_space s'
  end.

(** No key of [ks] equals a key before it in [seen ++ ks]. *)
Fixpoint fresh_keys (seen ks : list value) : bool :=
  match ks with
  | [] => true
  | k :: rest =>
      negb (existsb (fun k' => key_eqb k' k) seen) && fresh_keys (seen ++ [k]) rest
  end.

(** The values that pass through the codec unchanged: no boolean and no
    foreign object anywhere, every string one that lxml accepts as text,
    and every mapping a Python [dict] (hashable keys, no key twice). *)
Fixpoint plain_value (v : value) : bool :=
  match v with
  | VNone | VInt _ => true
  | VStr s => etree.xml_text s
  | VBool _ | VOther => false
  | VDict items =>
      forallb (fun kv => hashable kv.1 && plain_value kv.1 && plain_value kv.2) items
      && fresh_keys [] (items.*1)
  | VList elts => forallb plain_value elts
  end.

(** An element with children appended one after the other. *)
Definition with_children (node : Node) (cs : list Node) : Node :=
  foldl etree.append node cs.

(** Induction over values, through the entries of mappings and the
    elements of lists. *)
Section value_induction.
Variable P : value → Prop.
Hypothesis HNone : P VNone.
Hypothesis HStr : ∀ s, P (VStr s).
Hypothesis HInt : ∀ z, P (VInt z).
Hypothesis HBool : ∀ b, P (VBool b).
Hypothesis HOther : P VOther.
Hypothesis HDict : ∀ items, Forall (fun kv => P kv.1 ∧ P kv.2) items → P (VDict items).
Hypothesis HList : ∀ elts, Forall P elts → P (VList elts).

Fixpoint value_nested_ind (v : value) : P v :=
  match v with
  | VNone => HNone
  | VStr s => HStr s
  | VInt z => HInt z
  | VBool b => HBool b
  | VOther => HOther
  | VDict items =>
      HDict items
        ((fix go (l : list (value * value)) : Forall (fun kv => P kv.1 ∧ P kv.2) l :=
            match l with
            | [] => @List.Forall_nil _ _
            | (k, x) :: l' =>
                @List.Forall_cons _ _ (k, x) l'
                  (conj (value_nested_ind k) (value_nested_ind x)) (go l')
            end) items)
  | VList elts =>
      HList elts
        ((fix go (l : list value) : Forall P l :=
            match l with
            | [] => @List.Forall_nil _ _
            | x :: l' => @List.Forall_cons _ _ x l' (value_nested_ind x) (go l')
            end) elts)
  end.
End value_induction.

(** The element says it holds a [type] of the namespace [ns], whatever its
    ancestors declare. *)
Definition typed_like (node : Node) (ns type : string) : Prop :=
  ∀ scope,
    etree.get node xsi_nil = None
    ∧ ∃ type_with_ns, etree.get node xsi_type = Some type_with_ns
        ∧ _split_text_namespace scope node type_with_ns = (type, Some ns).

(** Encoding [v] into a new element with tag [t] succeeds, and the element
    decodes to [v] wherever it is placed. *)
Definition round_trip_at (t : QName) (v : value) : Prop :=
  ∃ node, encode_wsdl (etree.new t) v = Ok node ∧ tag node = t
          ∧ ∀ scope, decode_wsdl scope node = Ok v.

Definition item_for (x : value) (item : Node) : Prop :=
  tag item = plain "item" ∧ ∀ scope, decode_wsdl scope item = Ok x.

Definition entry_for (kv : value * value) (item : Node) : Prop :=
  tag item = plain "item"
  ∧ ∀ scope,
      decode_found decode_wsdl scope (plain "key") NoKey (children item) = Ok kv.1
      ∧ decode_found decode_wsdl scope (plain "value") NoValue (children item) = Ok kv.2.

(** *** The parser *)

Definition fault_tag : QName := qualified _main_ns "Fault".

(** The document has a [Fault] element of the envelope namespace, at any
    depth. *)
Definition contains_fault (root : Node) : Prop :=
  ∃ scope fault, (scope, fault) ∈ iter_all ∅ root ∧ tag fault = fault_tag.

(** The [return] elements under the children called [name] of the sections
    called [section], in document order. *)
Definition returns_of (root : Node) (section : QName) (name : string)
    : list (gmap string string * Node) :=
  scoped_section ← iter ∅ root section;
  child ← filter (fun c => localname (tag c) = name) (children scoped_section.2);
  iter (etree.nsmap scoped_section.1 scoped_section.2) child (plain "return").

(** What [res'] holds under [name] once the elements [rets] were decoded
    into [res] one after the other. *)
Definition stored (name : string) (res : gmap string value)
    (rets : list (gmap string string * Node)) (res' : gmap string value) : Prop :=
  match last rets with
  | Some ret => ∃ v, decode_wsdl ret.1 ret.2 = Ok v ∧ res' !! name = Some v
  | None => res' !! name = res !! name
  end.

(** The reading under which the first element of a name would be the one
    that [get_result] returns. *)
Definition first_return_wins (tostring : Node → string) (api : string) (root : Node)
    (name : string) : Prop :=
  ∀ p, Parser_init tostring api root = Ok p →
    match head (returns_of root (qualified _main_ns "Body") name) with
    | Some ret => get_result p name = decode_wsdl ret.1 ret.2
    | None => True
    end.

(** Sample documents. *)
Definition api_ns := "https://ns1.hosttech.eu/public/api".

Definition return_int (text : string) : Node :=
  etree.with_text (_set_type (etree.new (plain "return")) _NAMESPACE_XSD "int") text.

Definition response (name text : string) : Node :=
  with_children (etree.new (qualified api_ns name)) [return_int text].

Definition envelope (header body : list Node) : Node :=
  with_children (etree.new (qualified _main_ns "Envelope"))
    [with_children (etree.new (qualified _main_ns "Header")) header;
     with_children (etree.new (qualified _main_ns "Body")) body].

Definition fault_node (code message : string) : Node :=
  with_children (etree.new (qualified _main_ns "Fault"))
    [etree.with_text (etree.new (plain "faultcode")) code;
     etree.with_text (etree.new (plain "faultstring")) message].

Definition no_dump : Node → string := fun _ => "".

Definition twice : Node :=
  envelope [] [response "getNumberOfZonesResponse" "1";
               response "getNumberOfZonesResponse" "2"].

(** What parsing [twice] gives. *)
Definition twice_parsed : Parser :=
  {| _api := api_ns; _root := twice; _header := ∅;
     _body := {["getNumberOfZonesResponse" := VInt 2]} |}.

Definition faulty : Node :=
  envelope [] [response "getZoneResponse" "1";
               fault_node "SOAP-ENV:Server" "Zone not found"].

(** *** The module *)

(** A value of a record type with priorities that the module can read: it
    has a space, and what stands before the first one is an integer. *)
Definition splits_to (value : string) (v : pair_value) : Prop :=
  ∃ i n, Py.find " " value = Some i
         ∧ Py.int_of_str (Py.slice_to i value) = Some n
         ∧ v = (Some n, Some (Py.slice_from (S i) value)).

(** A value that has no space, or no integer before its first space. *)
Definition unreadable (value : string) : Prop :=
  match Py.find " " value with
  | None => True
  | Some i => Py.int_of_str (Py.slice_to i value) = None
  end.

Definition rewrite_to (prefix : option string) (type_in : string) (ttl : Z)
    (r : DNSRecord) (v : pair_value) : DNSRecord :=
  assign r prefix type_in ttl v.

(** What an [update_record] call with [c] makes of the record [x]. *)
Definition replaced_by (x c : DNSRecord) : DNSRecord :=
  if bool_decide (DNSRecord.id x = DNSRecord.id c) then c else x.

(** The wanted fields of a record that was updated or created. *)
Definition carries (p : params) (prefix : option string) (r : DNSRecord) : Prop :=
  DNSRecord.ttl r = ttl_in p ∧ DNSRecord.prefix r = prefix
  ∧ DNSRecord.type r = Some (type_in p).

(** Sample records and parameters. *)
Definition sample (i ttl : Z) (target : string) : DNSRecord :=
  DNSRecord.mk (Some i) (Some 1) (Some "A") None (Some target) ttl None.

Definition wanted (st : state) (ttl : Z) (vs : list string) (ow : bool) : params :=
  {| state_in := st; record_in := "example.com"; ttl_in := ttl; type_in := "A";
     value_in := vs; overwrite_in := ow; check_mode := false |}.

Definition wanted_mx (vs : list string) : params :=
  {| state_in := present; record_in := "example.com"; ttl_in := 3600; type_in := "MX";
     value_in := vs; overwrite_in := false; check_mode := false |}.

(** ** Records and zones as the service sends them *)

(** [d.get(key)] for a [dict]. *)
Fixpoint dict_get (k : value) (d : list (value * value)) : option value :=
  match d with
  | [] => None
  | (k', v) :: d' => if key_eqb k' k then Some v else dict_get k d'
  end.

(** [source[key]] for a string key: only a [dict] can be indexed by a
    string. *)
Definition getitem (source : value) (key : string) : result value :=
  match source with
  | VDict items =>
      match dict_get (VStr key) items with
      | Some v => Ok v
      | None => Raise (KeyError key)
      end
  | _ => Raise TypeError
  end.

(** [source.get(key)], which the code reaches only after [source[...]] has
    succeeded, that is for a [dict]. *)
Definition get_or_None (source : value) (key : string) : value :=
  match source with
  | VDict items => default VNone (dict_get (VStr key) items)
  | _ => VNone
  end.

(** [int(v)] for the values the codec produces; a foreign object is taken
    to be refused. *)
Definition int_of_value (v : value) : result Z :=
  match v with
  | VInt z => Ok z
  | VBool b => Ok (if b then 1 else 0)
  | VStr s =>
      match Py.int_of_str s with
      | Some z => Ok z
      | None => Raise ValueError
      end
  | _ => Raise TypeError
  end.

(** [for x in v]: the elements of a list, the keys of a [dict], the
    characters of a string. *)
Fixpoint chars (s : string) : list value :=
  match s with
  | EmptyString => []
  | String a s' => VStr (String a EmptyString) :: chars s'
  end.

Definition iterate (v : value) : result (list value) :=
  match v with
  | VList elts => Ok elts
  | VDict items => Ok (items.*1)
  | VStr s => Ok (chars s)
  | _ => Raise TypeError
  end.

Section comprehension.
Context {A B : Type}.
Variable f : A → result B.

(** [[f(x) for x in l]]. *)
Fixpoint for_each (l : list A) : result (list B) :=
  match l with
  | [] => Ok []
  | x :: rest =>
      do y <- f x;
      do ys <- for_each rest;
      Ok (y :: ys)
  end.
End comprehension.

(** A [DNSRecord] whose fields hold whatever the service sent; [ttl] is an
    integer in every record that the code builds ([int(...)] on reading,
    the module's [ttl] parameter on writing). *)
Module DNSRecordV.
Record t := mk {
  id : value;
  zone : value;
  type : value;
  prefix : value;
  target : value;
  ttl : Z;
  priority : value
}.

(** [DNSRecord.create_from_encoding]. *)
Definition create_from_encoding (source : value) : result t :=
  do id <- getitem source "id";
  do zone <- getitem source "zone";
  do type <- getitem source "type";
  let prefix := get_or_None source "prefix" in
  do target <- getitem source "target";
  do ttl_value <- getitem source "ttl";
  do ttl <- int_of_value ttl_value;
  let priority := get_or_None source "priority" in
  Ok {| id := id; zone := zone; type := type; prefix := prefix; target := target;
        ttl := ttl; priority := priority |}.

(** [DNSRecord.encode]. *)
Definition encode (self : t) (include_ids : bool) : value :=
  let result := [(VStr "type", type self); (VStr "prefix", prefix self);
                 (VStr "target", target self); (VStr "ttl", VInt (ttl self));
                 (VStr "priority", priority self)] in
  let result :=
    if include_ids
    then dict_set (VStr "zone") (zone self) (dict_set (VStr "id") (id self) result)
    else result in
  VDict result.

Definition of_int (o : option Z) : value :=
  match o with Some z => VInt z | None => VNone end.

Definition of_str (o : option string) : value :=
  match o with Some s => VStr s | None => VNone end.

(** The record as the module holds it. *)
Definition of_record (r : DNSRecord) : t :=
  {| id := of_int (DNSRecord.id r); zone := of_int (DNSRecord.zone r);
     type := of_str (DNSRecord.type r); prefix := of_str (DNSRecord.prefix r);
     target := of_str (DNSRecord.target r); ttl := DNSRecord.ttl r;
     priority := of_int (DNSRecord.priority r) |}.
End DNSRecordV.

Module DNSZone.
Record t := mk {
  id : value;
  user : value;
  name : value;
  email : value;
  ttl : Z;
  nameserver : value;
  serial : value;
  serial_last_update : value;
  refresh : value;
  retry : value;
  expire : value;
  template : value;
  ns3 : value;
  records : list DNSRecordV.t
}.

(** [DNSZone.create_from_encoding]. *)
Definition create_from_encoding (source : value) : result t :=
  do name <- getitem source "name";
  do id <- getitem source "id";
  let user := get_or_None source "user" in
  let email := get_or_None source "email" in
  do ttl_value <- getitem source "ttl";
  do ttl <- int_of_value ttl_value;
  do nameserver <- getitem source "nameserver";
  do serial <- getitem source "serial";
  do serial_last_update <- getitem source "serialLastUpdate";
  do refresh <- getitem source "refresh";
  do retry <- getitem source "retry";
  do expire <- getitem source "expire";
  let template := get_or_None source "template" in
  let ns3 := get_or_None source "ns3" in
  do encoded <- getitem source "records";
  do encoded <- iterate encoded;
  do records <- for_each DNSRecordV.create_from_encoding encoded;
  Ok {| id := id; user := user; name := name; email := email; ttl := ttl;
        nameserver := nameserver; serial := serial;
        serial_last_update := serial_last_update; refresh := refresh;
        retry := retry; expire := expire; template := template; ns3 := ns3;
        records := records |}.

(** [DNSZone.encode]. *)
Definition encode (self : t) : value :=
  VDict [(VStr "id", id self); (VStr "user", user self); (VStr "name", name self);
         (VStr "email", email self); (VStr "ttl", VInt (ttl self));
         (VStr "nameserver", nameserver self); (VStr "serial", serial self);
         (VStr "serialLastUpdate", serial_last_update self);
         (VStr "refresh", refresh self); (VStr "retry", retry self);
         (VStr "expire", expire self); (VStr "template", template self);
         (VStr "ns3", ns3 self);
         (VStr "records",
          VList ((fun record => DNSRecordV.encode record true) <$> records self))].
End DNSZone.

(** ** More of Python's strings *)

Module PyStr.

(** [s[-1:]]. *)
Fixpoint last_char (s : string) : string :=
  match s with
  | EmptyString => EmptyString
  | String a EmptyString => s
  | String _ s' => last_char s'
  end.

(** [s[:-1]]. *)
Fixpoint but_last (s : string) : string :=
  match s with
  | EmptyString => EmptyString
  | String a EmptyString => EmptyString
  | String a s' => String a (but_last s')
  end.

(** [s[:n]] for any integer [n]: a negative [n] counts from the end. *)
Definition slice_to (n : Z) (s : string) : string :=
  if n <? 0 then Py.slice_to (Z.to_nat (Z.of_nat (String.length s) + n)) s
  else Py.slice_to (Z.to_nat n) s.

(** [s.startswith(t)]. *)
Fixpoint startswith (s t : string) : bool :=
  match t, s with
  | EmptyString, _ => true
  | String b t', String a s' => Ascii.eqb a b && startswith s' t'
  | String _ _, EmptyString => false
  end.

(** [s.endswith(t)]. *)
Fixpoint endswith (s t : string) : bool :=
  if (String.length s =? String.length t)%nat then String.eqb s t
  else
    match s with
    | EmptyString => false
    | String _ s' => endswith s' t
    end.

(** [sep.join(l)]. *)
Fixpoint join (sep : string) (l : list string) : string :=
  match l with
  | [] => EmptyString
  | [x] => x
  | x :: rest => x +:+ sep +:+ join sep rest
  end.

End PyStr.

(** ** Formatting a ttl *)

Definition format_ttl (ttl : Z) : string :=
  let sec := ttl mod 60 in
  let ttl := ttl / 60 in
  let min := ttl mod 60 in
  let ttl := ttl / 60 in
  let h := ttl in
  let result := [] in
  let result := if h =? 0 then result else result ++ [Py.str_of_int h +:+ "h"] in
  let result := if min =? 0 then result else result ++ [Py.str_of_int min +:+ "m"] in
  let result := if sec =? 0 then result else result ++ [Py.str_of_int sec +:+ "s"] in
  PyStr.join " " result.

(** ** The record name and the zone *)

(** The first lines of [run_module]: a name in lower case without its final
    dot. *)
Definition normalize (name : string) : string :=
  let name := Py.lower name in
  if String.eqb (PyStr.last_char name) "." then PyStr.but_last name else name.

(** [run_module], "Convert record to prefix". *)
Definition prefix_of (zone record : string) : result (option string) :=
  let zone_in := normalize zone in
  let record_in := normalize record in
  if negb (PyStr.endswith record_in ("." +:+ zone_in))
     && negb (String.eqb record_in zone_in)
  then Raise (FailJson "Record must be in zone")
  else if String.eqb record_in zone_in then Ok None
  else Ok (Some (PyStr.slice_to
                   (Z.of_nat (String.length record_in)
                    - Z.of_nat (String.length zone_in) - 1) record_in)).

(** ** Composing a request *)

(** The envelope element, and the header and the body as they are now: the
    two are the children of the envelope, and what is appended to them
    afterwards is seen from the envelope. *)
Record Composer := {
  c_api : string;
  c_envelope : Node;
  c_header : Node;
  c_body : Node
}.

(** [self._root] with its children as they are now. *)
Definition Composer_root (c : Composer) : Node :=
  with_children (c_envelope c) [c_header c; c_body c].

(** The names of keyword arguments that Python lets through to [**args] of
    [add_simple_command(self, command, **args)]: no name twice, and none
    that is a parameter of the method. *)
Definition keywords_ok (names : list string) : bool :=
  bool_decide (NoDup names) && bool_decide ("self" ∉ names)
  && bool_decide ("command" ∉ names).

Section composing.
(** lxml's test of a namespace URI. *)
Variable valid_uri : string → bool.

(** [Composer._create]: an empty namespace counts as none. *)
Definition Composer_create (tag : string) (namespace : option string) : result Node :=
  match namespace with
  | Some ns =>
      if String.eqb ns "" then etree.Element valid_uri tag
      else
        do qname <- etree.QName_text ns tag;
        etree.Element valid_uri qname
  | None => etree.Element valid_uri tag
  end.

Definition _create_envelope (tag : string) : result Node :=
  Composer_create tag (Some _main_ns).

(** [Composer.__init__]. *)
Definition Composer_init (api : string) : result Composer :=
  do root <- _create_envelope "Envelope";
  do header <- _create_envelope "Header";
  do body <- _create_envelope "Body";
  Ok {| c_api := api; c_envelope := root; c_header := header; c_body := body |}.

Definition add_auth (c : Composer) (username password : string) : result Composer :=
  do auth <- Composer_create "authenticate" None;
  do user <- Composer_create "UserName" None;
  do user <- etree.set_text user username;
  let auth := etree.append auth user in
  do pw <- Composer_create "Password" None;
  do pw <- etree.set_text pw password;
  let auth := etree.append auth pw in
  Ok {| c_api := c_api c; c_envelope := c_envelope c;
        c_header := etree.append (c_header c) auth; c_body := c_body c |}.

(** The loop over the arguments of [add_simple_command]. *)
Fixpoint add_arguments (command : Node) (args : list (string * value)) : result Node :=
  match args with
  | [] => Ok command
  | (arg, value) :: rest =>
      do arg <- Composer_create arg None;
      do arg <- encode_wsdl arg value;
      add_arguments (etree.append command arg) rest
  end.

(** [add_simple_command(command, **args)]; [args] lists the keyword
    arguments in the order given. *)
Definition add_simple_command (c : Composer) (command : string)
    (args : list (string * value)) : result Composer :=
  if negb (keywords_ok args.*1) then Raise TypeError
  else
    do command <- Composer_create command (Some (c_api c));
    do command <- add_arguments command args;
    Ok {| c_api := c_api c; c_envelope := c_envelope c; c_header := c_header c;
          c_body := etree.append (c_body c) command |}.
End composing.

(** ** The remote client *)

Definition isinstance_dict (v : value) : bool :=
  match v with VDict _ => true | _ => false end.

Module HostTechAPI.
Section API.
Variable tostring : Node → string.
(** The transport and the XML parser: the status code, the text and the
    parsed document sent in answer to a request. *)
Variable transport : Node → Z * string * Node.
(** lxml's test of a namespace URI. *)
Variable valid_uri : string → bool.
Variables (api username password : string).

(** [Composer.execute], from the request on. *)
Definition Composer_execute (command : Composer) : result Parser :=
  let '(code, payload, root) := transport (Composer_root command) in
  execute tostring (c_api command) code payload root.

Definition _prepare : result Composer :=
  do command <- Composer_init valid_uri api;
  add_auth valid_uri command username password.

(** [HostTechAPI._execute], from the request on. *)
Definition API_execute (command : Composer) (result_name : string)
    (acceptable_types : value → bool) : result value :=
  let '(code, payload, root) := transport (Composer_root command) in
  _execute tostring (c_api command) code payload root result_name acceptable_types.

(** [command = self._prepare(); command.add_simple_command(name, **args)]. *)
Definition compose (name : string) (args : list (string * value)) : result Composer :=
  do command <- _prepare;
  add_simple_command valid_uri command name args.

Definition get_number_of_zones : result value :=
  do command <- compose "getNumberOfZones" [];
  API_execute command "getNumberOfZonesResponse" isinstance_int.

Definition get_zone (search : value) : result (option DNSZone.t) :=
  do command <- compose "getZone" [("search", search)];
  match API_execute command "getZoneResponse" isinstance_dict with
  | Ok encoded =>
      do zone <- DNSZone.create_from_encoding encoded;
      Ok (Some zone)
  | Raise (WSDLError error_origin error_message) =>
      if String.eqb error_origin "server" && String.eqb error_message "zone not found"
      then Ok None
      else Raise (WSDLError error_origin error_message)
  | Raise e => Raise e
  end.

Definition add_record (search : value) (record : DNSRecordV.t) : result DNSRecordV.t :=
  do command <- compose "addRecord"
                  [("search", search); ("recorddata", DNSRecordV.encode record false)];
  do encoded <- API_execute command "addRecordResponse" isinstance_dict;
  DNSRecordV.create_from_encoding encoded.

Definition get_record (record_id : value) : result DNSRecordV.t :=
  if is_None record_id then Raise HostTechAPIError
  else
    do command <- compose "getRecord" [("recordId", record_id)];
    do encoded <- API_execute command "getRecordResponse" isinstance_dict;
    DNSRecordV.create_from_encoding encoded.

Definition update_record (record : DNSRecordV.t) : result DNSRecordV.t :=
  if is_None (DNSRecordV.id record) then Raise HostTechAPIError
  else
    do command <- compose "updateRecord"
                    [("recordId", DNSRecordV.id record);
                     ("recorddata", DNSRecordV.encode record false)];
    do encoded <- API_execute command "updateRecordResponse" isinstance_dict;
    DNSRecordV.create_from_encoding encoded.

Definition delete_record (record : DNSRecordV.t) : result value :=
  if is_None (DNSRecordV.id record) then Raise HostTechAPIError
  else
    do command <- compose "deleteRecord" [("recordId", DNSRecordV.id record)];
    API_execute command "deleteRecordResponse" isinstance_bool.

Definition change_ip (from_ip to_ip : value) : result value :=
  do command <- compose "changeIp" [("currentIp", from_ip); ("newIp", to_ip)];
  API_execute command "changeIpResponse" isinstance_int.

Definition change_ttl (ip ttl : value) : result value :=
  do command <- compose "changeTTL" [("ip", ip); ("ttl", ttl)];
  API_execute command "changeTTLResponse" isinstance_int.
End API.
End HostTechAPI.

(** The envelope that a call of the client sends for the operation
    [command] with the arguments [args]. *)
Definition request (valid_uri : string → bool) (api username password command : string)
    (args : list (string * value)) : result Node :=
  do c <- HostTechAPI.compose valid_uri api username password command args;
  Ok (Composer_root c).

(** A namespace that lxml reads as it is written: text that lxml accepts,
    with no brace at its start and no closing brace. *)
Definition literal_uri (ns : string) : bool :=
  etree.xml_text ns && negb (PyStr.startswith ns "{")
  && bool_decide (Py.find "}" ns = None).

(** A test of namespace URIs for the examples: it accepts the two that
    they use. *)
Definition known_uri (ns : string) : bool :=
  String.eqb ns _main_ns || String.eqb ns "https://ns1.hosttech.eu/public/api".

(** The fault that [get_zone] takes for the answer that there is no such
    zone. *)
Definition zone_not_found (e : exn) : bool :=
  match e with
  | WSDLError origin message =>
      String.eqb origin "server" && String.eqb message "zone not found"
  | _ => false
  end.

(** An argument element of a command: it has the name of the argument and
    decodes to its value. *)
Definition argument_for (arg : string * value) (element : Node) : Prop :=
  tag element = plain arg.1 ∧ ∀ scope, decode_wsdl scope element = Ok arg.2.

Definition not_found_answer : Node :=
  envelope [] [fault_node "" "zone not found"].

(** A record with the wanted ttl, prefix and type, whose priority and
    target are those of one of the wanted values. *)
Definition carries_value (p : params) (prefix : option string) (r : DNSRecord) : Prop :=
  carries p prefix r
  ∧ ∃ value, value ∈ value_in p ∧ parse_value (type_in p) value = Ok (pair_of r).

(** A call that stays within the record set of [prefix] and [type_in]:
    it deletes a record of the set, or rewrites a record of the set, which
    keeps its [id] and [zone], to the wanted fields and one of the wanted
    values, or adds a record with the wanted fields, one of the wanted
    values and no [id]. *)
Definition within_record_set (p : params) (prefix : option string)
    (zone_records : list DNSRecord) (c : api_call) : Prop :=
  match c with
  | delete_record r => r ∈ zone_records ∧ selected prefix (type_in p) r
  | update_record r =>
      carries_value p prefix r
      ∧ ∃ r0, r0 ∈ zone_records ∧ selected prefix (type_in p) r0
              ∧ DNSRecord.id r = DNSRecord.id r0 ∧ DNSRecord.zone r = DNSRecord.zone r0
  | add_record r => carries_value p prefix r ∧ DNSRecord.id r = None
  end.

(** ** Notions used to state the further properties *)

(** The value holds no object of a kind the codec does not know. *)
Fixpoint encodable (v : value) : bool :=
  match v with
  | VOther => false
  | VDict items => forallb (fun kv => encodable kv.1 && encodable kv.2) items
  | VList elts => forallb encodable elts
  | _ => true
  end.

(** Every string in the value, at any depth, is one that lxml accepts as
    text. *)
Fixpoint xml_value (v : value) : bool :=
  match v with
  | VStr s => etree.xml_text s
  | VDict items => forallb (fun kv => xml_value kv.1 && xml_value kv.2) items
  | VList elts => forallb xml_value elts
  | _ => true
  end.

(** The two ways in which encoding fails, and what holds when it does
    not. *)
Definition refused (enc unknown : bool) (e : exn) : Prop :=
  (e = WSDLCodingException CannotEncode ∧ enc = false)
  ∨ (e = ValueError ∧ unknown = false).

(** What [encode_wsdl] does to an element for the value [v]. *)
Definition encodes (v : value) : Prop :=
  ∀ node,
    match encode_wsdl node v with
    | Ok node' => encodable v = true ∧ xml_value v = true ∧ tag node' = tag node
    | Raise e => refused (encodable v) (xml_value v) e
    end.

(** Every text in the element and below it is one that lxml accepts, as
    in every element that lxml holds. *)
Fixpoint xml_node (node : Node) : bool :=
  match node with
  | Element _ _ _ txt kids =>
      from_option etree.xml_text true txt && forallb xml_node kids
  end.

(** Induction over elements, through their children. *)
Section Node_induction.
Variable P : Node → Prop.
Hypothesis HElement : ∀ t d a txt kids, Forall P kids → P (Element t d a txt kids).

Fixpoint Node_nested_ind (node : Node) : P node :=
  match node with
  | Element t d a txt kids =>
      HElement t d a txt kids
        ((fix go (l : list Node) : Forall P l :=
            match l with
            | [] => @List.Forall_nil _ _
            | x :: l' => @List.Forall_cons _ _ x l' (Node_nested_ind x) (go l')
            end) kids)
  end.
End Node_induction.

(** The strings of the record are text that lxml accepts. *)
Definition xml_record (r : DNSRecord) : bool :=
  from_option etree.xml_text true (DNSRecord.type r)
  && from_option etree.xml_text true (DNSRecord.prefix r)
  && from_option etree.xml_text true (DNSRecord.target r).

(** Whatever the element decodes to passes the test [P]. *)
Definition decodes_to (P : value → bool) (node : Node) : Prop :=
  ∀ scope v, decode_wsdl scope node = Ok v → P v = true.

(** The answer is a success that carries the result [res] under [name]:
    a status from 200 to 299, a document that parses, whose header says
    [authenticateResponse] is [True] and whose body holds [res]. *)
Definition answers (tostring : Node → string) (api : string) (code : Z) (root : Node)
    (name : string) (res : value) : Prop :=
  200 ≤ code < 300
  ∧ ∃ p, Parser_init tostring api root = Ok p
         ∧ _header p !! "authenticateResponse" = Some (VBool true)
         ∧ _body p !! name = Some res.

(** Every tag of the element and of what is below it passes [ok]. *)
Fixpoint tags_in (ok : QName → bool) (node : Node) : bool :=
  match node with
  | Element t _ _ _ kids => ok t && forallb (tags_in ok) kids
  end.

(** The tags that [encode_wsdl] gives to the elements it creates. *)
Definition codec_tag (t : QName) : bool :=
  bool_decide (t = plain "item") || bool_decide (t = plain "key")
  || bool_decide (t = plain "value").

(** [encode_wsdl] keeps the tag of the element and creates elements with
    the tags of the codec only. *)
Definition keeps_tags (v : value) : Prop :=
  ∀ node node', encode_wsdl node v = Ok node' →
    tag node' = tag node
    ∧ (forallb (tags_in codec_tag) (children node) = true →
       forallb (tags_in codec_tag) (children node') = true).

(** A [return] element that holds the boolean [True], as a service writes
    it. *)
Definition return_true : Node :=
  etree.with_text (_set_type (etree.new (plain "return")) _NAMESPACE_XSD "boolean") "true".

(** The answer of a service that accepts the credentials and returns the
    element [ret] for the operation whose result is called [name]. *)
Definition answer (api name : string) (ret : Node) : Node :=
  envelope [with_children (etree.new (qualified api "authenticateResponse")) [return_true]]
           [with_children (etree.new (qualified api name)) [ret]].

(** The parts of such an answer: the element of an operation, and the
    header or body that holds it. *)
Definition operation (api nm : string) (ret : Node) : Node :=
  with_children (etree.new (qualified api nm)) [ret].

Definition part (sec api nm : string) (ret : Node) : Node :=
  with_children (etree.new (qualified _main_ns sec)) [operation api nm ret].

(** A sample zone with one record, its encoding as a [return] element, and
    a transport that answers every request with it. *)
Definition sample_zone : DNSZone.t :=
  {| DNSZone.id := VInt 1; DNSZone.user := VInt 7; DNSZone.name := VStr "example.com";
     DNSZone.email := VStr "hostmaster@example.com"; DNSZone.ttl := 10800;
     DNSZone.nameserver := VStr "ns1.hosttech.ch"; DNSZone.serial := VStr "2018010101";
     DNSZone.serial_last_update := VInt 0; DNSZone.refresh := VInt 7200;
     DNSZone.retry := VInt 120; DNSZone.expire := VInt 1234567;
     DNSZone.template := VNone; DNSZone.ns3 := VInt 1;
     DNSZone.records := [DNSRecordV.of_record (sample 5 3600 "1.2.3.4")] |}.

(** The element after [encode_wsdl(node, v)], or [node] itself if that
    fails. *)
Definition encoded_or (v : value) (node : Node) : Node :=
  match encode_wsdl node v with
  | Ok node' => node'
  | Raise _ => node
  end.

Definition sample_zone_return : Node :=
  encoded_or (DNSZone.encode sample_zone) (etree.new (plain "return")).

Definition sample_transport (_ : Node) : Z * string * Node :=
  (200, "", answer api_ns "getZoneResponse" sample_zone_return).

(** A header that holds one operation element. *)
Definition sample_section : gmap string string * Node :=
  (∅, with_children (etree.new (qualified _main_ns "Header")) [response "a" "1"]).

(** * Properties *)

(** ** Integers as text *)

Lemma int_digits_uint u : ∀ acc,
  Py.int_digits (NilEmpty.string_of_uint u) acc true = Some (uint_value u acc).
Proof. induction u; intros acc; simpl; try done; apply IHu. Qed.

Lemma int_digits_uint_first u acc :
  u ≠ Nil →
  Py.int_digits (NilEmpty.string_of_uint u) acc false = Some (uint_value u acc).
Proof. destruct u; intros Hu; simpl; try done; apply int_digits_uint. Qed.

Lemma uint_value_acc u : ∀ acc : positive,
  uint_value u (Z.pos acc) = Z.pos (Pos.of_uint_acc u acc).
Proof.
  induction u; intros acc; simpl; try done;
    rewrite <- IHu; f_equal; lia.
Qed.

Lemma uint_value_0 u : uint_value u 0 = Z.of_N (Pos.of_uint u).
Proof.
  induction u; simpl; try done; apply (uint_value_acc u).
Qed.

Lemma no_space_uint u : no_space (NilEmpty.string_of_uint u) = true.
Proof. induction u; simpl; done. Qed.

Lemma rstrip_no_space s : no_space s = true → Py.rstrip s = s.
Proof.
  induction s as [|a s IH]; simpl; [done|].
  intros [Ha Hs]%andb_true_iff. rewrite (IH Hs).
  destruct s; [|done]. by destruct (Py.int_space a).
Qed.

Lemma strip_no_space s : no_space s = true → Py.strip s = s.
Proof.
  intros Hs. unfold Py.strip.
  destruct s as [|a s]; [done|]. simpl in Hs |- *.
  apply andb_true_iff in Hs as [Ha Hs].
  destruct (Py.int_space a) eqn:Hsp; [done|].
  apply rstrip_no_space. simpl. by rewrite Hsp.
Qed.

Lemma to_uint_not_nil p : Pos.to_uint p ≠ Nil.
Proof.
  intros H. pose proof (DecimalPos.Unsigned.of_to p) as Hp.
  rewrite H in Hp. done.
Qed.

Lemma int_of_str_uint u :
  u ≠ Nil → Py.int_of_str (NilEmpty.string_of_uint u) = Some (Z.of_N (Pos.of_uint u)).
Proof.
  intros Hu. unfold Py.int_of_str.
  rewrite strip_no_space by apply no_space_uint.
  rewrite <- uint_value_0, <- (int_digits_uint_first u 0 Hu).
  by destruct u.
Qed.

Lemma int_of_str_of_int z : Py.int_of_str (Py.str_of_int z) = Some z.
Proof.
  destruct z as [|p|p]; [done|..]; unfold Py.str_of_int; simpl.
  - pose proof (to_uint_not_nil p) as Hp.
    assert (NilZero.string_of_uint (Pos.to_uint p) = NilEmpty.string_of_uint (Pos.to_uint p))
      as -> by (by destruct (Pos.to_uint p)).
    by rewrite int_of_str_uint, DecimalPos.Unsigned.of_to.
  - pose proof (to_uint_not_nil p) as Hp.
    assert (NilZero.string_of_uint (Pos.to_uint p) = NilEmpty.string_of_uint (Pos.to_uint p))
      as -> by (by destruct (Pos.to_uint p)).
    unfold Py.int_of_str.
    rewrite strip_no_space by (simpl; apply no_space_uint).
    rewrite int_digits_uint_first, uint_value_0, DecimalPos.Unsigned.of_to by done.
    done.
Qed.

(** ** The value codec *)

(** The two functions, unfolded once. *)
Lemma decode_wsdl_unfold scope node :
  decode_wsdl scope node =
  if bool_decide (etree.get node xsi_nil = Some "true") then Ok VNone else
  match etree.get node xsi_type with
  | None => Raise (WSDLCodingException NoTypeTag)
  | Some type_with_ns =>
      let '(type, ns) := _split_text_namespace scope node type_with_ns in
      match ns with
      | None => Raise (WSDLCodingException NoNamespace)
      | Some ns =>
          if String.eqb ns _NAMESPACE_XSD then
            if String.eqb type "boolean" then
              if bool_decide (text node = Some "true") then Ok (VBool true)
              else if bool_decide (text node = Some "false") then Ok (VBool false)
              else Raise (WSDLCodingException InvalidBoolean)
            else if String.eqb type "int" then py_int_text (text node)
            else if String.eqb type "string" then Ok (text_value (text node))
            else Raise (WSDLCodingException UnknownXsdType)
          else if String.eqb ns _NAMESPACE_XML_SOAP then
            if String.eqb type "Map" then
              decode_map decode_wsdl (etree.nsmap scope node) (children node) []
            else Raise (WSDLCodingException UnknownXsdType)
          else if String.eqb ns _NAMESPACE_XML_SOAP_ENCODING then
            if String.eqb type "Array" then
              decode_array decode_wsdl (etree.nsmap scope node) (children node) []
            else Raise (WSDLCodingException UnknownXsdType)
          else Raise (WSDLCodingException UnknownTypeNamespace)
      end
  end.
Proof. by destruct node. Qed.

Lemma encode_wsdl_unfold node v :
  encode_wsdl node v =
  if is_None v then
    Ok (etree.set node xsi_nil "true")
  else if isinstance_str v then
    etree.set_text (_set_type node _NAMESPACE_XSD "string") (py_str v)
  else if isinstance_int v then
    etree.set_text (_set_type node _NAMESPACE_XSD "int") (py_str v)
  else if isinstance_bool v then
    etree.set_text (_set_type node _NAMESPACE_XSD "boolean")
      (if truthy v then "true" else "false")
  else
    match v with
    | VDict items =>
        encode_items encode_wsdl (_set_type node _NAMESPACE_XML_SOAP "Map") items
    | VList elts =>
        encode_elts encode_wsdl
          (_set_type node _NAMESPACE_XML_SOAP_ENCODING "Array") elts
    | _ => Raise (WSDLCodingException CannotEncode)
    end.
Proof. by destruct v. Qed.

Lemma typed_set_type tag ns type :
  (ns, type) ∈ [(_NAMESPACE_XSD, "string"); (_NAMESPACE_XSD, "int");
                (_NAMESPACE_XML_SOAP, "Map"); (_NAMESPACE_XML_SOAP_ENCODING, "Array")] →
  typed_like (_set_type (etree.new tag) ns type) ns type.
Proof.
  intros Hin scope. split.
  - repeat (apply elem_of_cons in Hin as [[= -> ->]|Hin]; [by vm_compute|]).
    by apply elem_of_nil in Hin.
  - eexists. split.
    + unfold _set_type, etree.set_qname, etree.set, etree.get. simpl. apply lookup_insert_eq.
    + unfold _split_text_namespace, etree.nsmap.
      repeat (apply elem_of_cons in Hin as [[= -> ->]|Hin];
        [simpl; f_equal; apply lookup_union_Some_l; by vm_compute|]).
      by apply elem_of_nil in Hin.
Qed.

Lemma typed_like_ext node node' ns type :
  attrib node' = attrib node → nsdecl node' = nsdecl node →
  typed_like node ns type → typed_like node' ns type.
Proof.
  intros Ha Hd H scope. destruct (H scope) as (Hnil & t & Ht & Hsplit).
  unfold etree.get, _split_text_namespace, etree.nsmap in *.
  rewrite Ha, Hd. eauto.
Qed.

Lemma with_children_fields node cs :
  tag (with_children node cs) = tag node
  ∧ attrib (with_children node cs) = attrib node
  ∧ nsdecl (with_children node cs) = nsdecl node
  ∧ children (with_children node cs) = children node ++ cs.
Proof.
  revert node. induction cs as [|c cs IH]; intros node; simpl.
  - by rewrite app_nil_r.
  - destruct (IH (etree.append node c)) as (-> & -> & -> & ->).
    simpl. by rewrite <- app_assoc.
Qed.

Lemma decode_typed scope node ns type :
  typed_like node ns type →
  decode_wsdl scope node =
  if String.eqb ns _NAMESPACE_XSD then
    if String.eqb type "boolean" then
      if bool_decide (text node = Some "true") then Ok (VBool true)
      else if bool_decide (text node = Some "false") then Ok (VBool false)
      else Raise (WSDLCodingException InvalidBoolean)
    else if String.eqb type "int" then py_int_text (text node)
    else if String.eqb type "string" then Ok (text_value (text node))
    else Raise (WSDLCodingException UnknownXsdType)
  else if String.eqb ns _NAMESPACE_XML_SOAP then
    if String.eqb type "Map" then
      decode_map decode_wsdl (etree.nsmap scope node) (children node) []
    else Raise (WSDLCodingException UnknownXsdType)
  else if String.eqb ns _NAMESPACE_XML_SOAP_ENCODING then
    if String.eqb type "Array" then
      decode_array decode_wsdl (etree.nsmap scope node) (children node) []
    else Raise (WSDLCodingException UnknownXsdType)
  else Raise (WSDLCodingException UnknownTypeNamespace).
Proof.
  intros H. destruct (H scope) as (Hnil & t & Ht & Hsplit).
  rewrite decode_wsdl_unfold, Hnil, Ht, Hsplit. done.
Qed.

Lemma encode_elts_spec elts :
  Forall (round_trip_at (plain "item")) elts →
  ∀ node, ∃ kids,
    encode_elts encode_wsdl node elts = Ok (with_children node kids)
    ∧ Forall2 item_for elts kids.
Proof.
  induction 1 as [|x elts (kid & Hkid & Htag & Hdec) _ IH]; intros node; simpl.
  - exists []. by split.
  - rewrite Hkid. simpl. destruct (IH (etree.append node kid)) as (kids & -> & Hkids).
    exists (kid :: kids). split; [done|]. by constructor.
Qed.

Lemma decode_array_spec elts kids :
  Forall2 item_for elts kids →
  ∀ scope res, decode_array decode_wsdl scope kids res = Ok (VList (res ++ elts)).
Proof.
  induction 1 as [|x kid elts kids [Htag Hdec] _ IH]; intros scope res; simpl.
  - by rewrite app_nil_r.
  - rewrite Htag, Hdec. simpl. rewrite IH, <- app_assoc. done.
Qed.

Lemma encode_items_spec items :
  Forall (fun kv => round_trip_at (plain "key") kv.1
                    ∧ round_trip_at (plain "value") kv.2) items →
  ∀ node, ∃ kids,
    encode_items encode_wsdl node items = Ok (with_children node kids)
    ∧ Forall2 entry_for items kids.
Proof.
  induction 1 as [|[k x] items [(ke & Hke & Hkt & Hkd) (ve & Hve & Hvt & Hvd)] _ IH];
    intros node; simpl in *.
  - exists []. by split.
  - rewrite Hke. simpl. rewrite Hve. simpl.
    set (child := etree.append (etree.append (etree.new (plain "item")) ke) ve).
    destruct (IH (etree.append node child)) as (kids & -> & Hkids).
    exists (child :: kids). split; [done|]. constructor; [|done].
    split; [done|]. intros scope. simpl. rewrite Hkt, Hvt. simpl.
    by rewrite Hkd, Hvd.
Qed.

Lemma dict_set_fresh k v res :
  existsb (fun k' => key_eqb k' k) (res.*1) = false →
  dict_set k v res = res ++ [(k, v)].
Proof.
  induction res as [|[k' v'] res IH]; simpl; [done|].
  intros [Hk Hres]%orb_false_iff. rewrite Hk. f_equal. by apply IH.
Qed.

Lemma decode_map_spec items kids :
  Forall2 entry_for items kids →
  ∀ scope res,
    forallb (fun kv => hashable kv.1) items = true →
    fresh_keys (res.*1) (items.*1) = true →
    decode_map decode_wsdl scope kids res = Ok (VDict (res ++ items)).
Proof.
  induction 1 as [|[k x] kid items kids [Htag Hdec] _ IH]; intros scope res Hh Hf; simpl in *.
  - by rewrite app_nil_r.
  - apply andb_true_iff in Hh as [Hk Hh]. apply andb_true_iff in Hf as [Hnew Hf].
    apply negb_true_iff in Hnew.
    rewrite Htag. simpl.
    destruct (Hdec (etree.nsmap scope kid)) as [-> ->]. simpl. rewrite Hk.
    rewrite (dict_set_fresh _ _ _ Hnew), IH, <- app_assoc; [done..|].
    by rewrite fmap_app.
Qed.

Lemma xml_text_uint u : etree.xml_text (NilEmpty.string_of_uint u) = true.
Proof. induction u; simpl; done. Qed.

Lemma xml_text_str_of_int z : etree.xml_text (Py.str_of_int z) = true.
Proof.
  unfold Py.str_of_int, NilZero.string_of_int, NilZero.string_of_uint.
  destruct (Z.to_int z) as [u|u]; destruct u; try done; simpl; apply xml_text_uint.
Qed.

Lemma set_text_int node z :
  etree.set_text node (Py.str_of_int z) = Ok (etree.with_text node (Py.str_of_int z)).
Proof. unfold etree.set_text. by rewrite xml_text_str_of_int. Qed.

(** Every value without booleans and foreign objects, nested to any depth,
    is encoded into a new element with a plain tag without error and
    decoded to itself. *)
Theorem round_trip_plain (v : value) :
  plain_value v = true → ∀ name, round_trip_at (plain name) v.
Proof.
  induction v as [|s|z|b| |items IH|elts IH] using value_nested_ind;
    intros Hv name; set (t := plain name); try discriminate Hv.
  - exists (etree.set (etree.new t) xsi_nil "true"). split; [done|]. split; [done|].
    intros scope. by rewrite decode_wsdl_unfold.
  - simpl in Hv. eexists. split.
    { rewrite encode_wsdl_unfold. simpl. unfold etree.set_text. rewrite Hv. reflexivity. }
    split; [done|]. intros scope.
    rewrite (decode_typed _ _ _NAMESPACE_XSD "string"); [done|].
    eapply typed_like_ext; [..|apply (typed_set_type t)]; [done|done|].
    apply elem_of_cons. by left.
  - eexists. split.
    { rewrite encode_wsdl_unfold. simpl. apply set_text_int. }
    split; [done|]. intros scope.
    rewrite (decode_typed _ _ _NAMESPACE_XSD "int").
    + simpl. by rewrite int_of_str_of_int.
    + eapply typed_like_ext; [..|apply (typed_set_type t)]; [done|done|].
      apply elem_of_cons. right. apply elem_of_cons. by left.
  - simpl in Hv. apply andb_true_iff in Hv as [Hitems Hkeys].
    assert (Forall (fun kv => round_trip_at (plain "key") kv.1
                              ∧ round_trip_at (plain "value") kv.2) items) as Hrt.
    { apply Forall_forall. intros kv Hin.
      rewrite Forall_forall in IH. destruct (IH kv Hin) as [IHk IHx].
      rewrite forallb_forall in Hitems. apply list_elem_of_In in Hin.
      specialize (Hitems kv Hin).
      apply andb_true_iff in Hitems as [[_ Hk]%andb_true_iff Hx]. auto. }
    destruct (encode_items_spec items Hrt
                (_set_type (etree.new t) _NAMESPACE_XML_SOAP "Map")) as (kids & Henc & Hkids).
    eexists. split; [rewrite encode_wsdl_unfold; exact Henc|].
    destruct (with_children_fields (_set_type (etree.new t) _NAMESPACE_XML_SOAP "Map") kids)
      as (Htag & Hattr & Hdecl & Hch).
    split; [by rewrite Htag|]. intros scope.
    rewrite (decode_typed _ _ _NAMESPACE_XML_SOAP "Map").
    + simpl. rewrite Hch. simpl.
      rewrite (decode_map_spec items kids Hkids); [done| |done].
      rewrite forallb_forall in Hitems |- *. intros kv Hin.
      specialize (Hitems kv Hin).
      by apply andb_true_iff in Hitems as [[? _]%andb_true_iff _].
    + eapply typed_like_ext; [..|apply (typed_set_type t)]; [done|done|].
      do 2 (apply elem_of_cons; right). apply elem_of_cons. by left.
  - simpl in Hv.
    assert (Forall (round_trip_at (plain "item")) elts) as Hrt.
    { apply Forall_forall. intros x Hin.
      rewrite Forall_forall in IH. apply (IH x Hin).
      rewrite forallb_forall in Hv. apply Hv. by apply list_elem_of_In. }
    destruct (encode_elts_spec elts Hrt
                (_set_type (etree.new t) _NAMESPACE_XML_SOAP_ENCODING "Array"))
      as (kids & Henc & Hkids).
    eexists. split; [rewrite encode_wsdl_unfold; exact Henc|].
    destruct (with_children_fields
                (_set_type (etree.new t) _NAMESPACE_XML_SOAP_ENCODING "Array") kids)
      as (Htag & Hattr & Hdecl & Hch).
    split; [by rewrite Htag|]. intros scope.
    rewrite (decode_typed _ _ _NAMESPACE_XML_SOAP_ENCODING "Array").
    + simpl. rewrite Hch. simpl. by rewrite (decode_array_spec elts kids Hkids).
    + eapply typed_like_ext; [..|apply (typed_set_type t)]; [done|done|].
      do 3 (apply elem_of_cons; right). apply elem_of_cons. by left.
Qed.

(** C1: the round trip breaks on booleans.  [bool] is a subclass of [int],
    so [encode_wsdl] takes the integer branch for [True] and [False], writes
    an [xs:int] element with the text [True] or [False], and [decode_wsdl]
    raises [ValueError] on it; the boolean branch of the encoder is never
    reached. *)
Theorem booleans_do_not_round_trip (b : bool) (t : QName) (scope : gmap string string) :
  ∃ node,
    encode_wsdl (etree.new t) (VBool b) = Ok node
    ∧ etree.get node xsi_type = Some "xs:int"
    ∧ text node = Some (if b then "True" else "False")
    ∧ decode_wsdl scope node = Raise ValueError.
Proof.
  exists (etree.with_text (_set_type (etree.new t) _NAMESPACE_XSD "int")
            (Py.str_of_bool b)).
  split; [by destruct b|]. split; [by vm_compute|]. split; [by destruct b|].
  rewrite (decode_typed _ _ _NAMESPACE_XSD "int").
  - by destruct b.
  - eapply typed_like_ext; [..|apply (typed_set_type t)]; [done|done|].
    apply elem_of_cons. right. apply elem_of_cons. by left.
Qed.

(** ** The response parser *)

Lemma raise_fault_is_error (tostring : Node → string) fault :
  ∃ origin message, raise_fault tostring fault = WSDLError origin message.
Proof.
  unfold raise_fault. destruct (_ ≫= text_nonempty); eauto.
Qed.

Lemma raise_fault_message (tostring : Node → string) fault fs s :
  etree.find fault.2 (plain "faultstring") = Some fs →
  text fs = Some s → s ≠ "" →
  ∃ origin, raise_fault tostring fault = WSDLError origin s.
Proof.
  intros Hfs Ht Hs. unfold raise_fault. rewrite Hfs.
  cbn [mbind option_bind].
  assert (text_nonempty fs = Some s) as ->.
  { unfold text_nonempty. rewrite Ht. by destruct (String.eqb_spec s ""). }
  eauto.
Qed.

Lemma iter_contains_fault (root : Node) :
  iter ∅ root fault_tag ≠ [] → contains_fault root.
Proof.
  destruct (iter ∅ root fault_tag) as [|[scope fault] rest] eqn:Hiter; [done|].
  intros _. exists scope, fault.
  assert ((scope, fault) ∈ iter ∅ root fault_tag) as Hin
    by (rewrite Hiter; apply list_elem_of_here).
  apply list_elem_of_filter in Hin as [Htag Hin]. by split.
Qed.

(** C6: a response that contains a [Fault] element of the envelope
    namespace, anywhere and next to anything, makes [Parser.__init__] raise a
    [WSDLError] before a header or body element is looked at; so do
    [Composer.execute] for every status code and [HostTechAPI._execute] for
    every result name, which therefore never extracts a result.  The message
    is the fault string of the first [Fault] element when it has one. *)
Theorem fault_before_results (tostring : Node → string) (api : string) (root : Node) :
  contains_fault root →
  ∃ origin message,
    Parser_init tostring api root = Raise (WSDLError origin message)
    ∧ (∀ code payload,
         execute tostring api code payload root = Raise (WSDLError origin message))
    ∧ (∀ code payload result_name acceptable_types,
         _execute tostring api code payload root result_name acceptable_types
         = Raise (WSDLError origin message))
    ∧ (∀ first rest fs s,
         iter ∅ root fault_tag = first :: rest →
         etree.find first.2 (plain "faultstring") = Some fs →
         text fs = Some s → s ≠ "" → message = s).
Proof.
  intros (scope & fault & Hin & Htag).
  assert (∃ first rest, iter ∅ root fault_tag = first :: rest) as (first & rest & Hiter).
  { destruct (iter ∅ root fault_tag) as [|first rest] eqn:Hiter; [|eauto].
    assert ((scope, fault) ∈ iter ∅ root fault_tag) as Hf
      by (by apply list_elem_of_filter).
    rewrite Hiter in Hf. by apply elem_of_nil in Hf. }
  destruct (raise_fault_is_error tostring first) as (origin & message & Hraise).
  assert (Parser_init tostring api root = Raise (WSDLError origin message)) as Hinit.
  { unfold Parser_init. fold fault_tag. by rewrite Hiter, Hraise. }
  exists origin, message. split; [done|]. split; [|split].
  - intros code payload. unfold execute. rewrite Hinit. by destruct (_ || _).
  - intros code payload result_name acceptable_types.
    unfold _execute, execute. rewrite Hinit. by destruct (_ || _).
  - intros first' rest' fs s Hiter' Hfs Ht Hs.
    rewrite Hiter in Hiter'. injection Hiter' as <- <-.
    destruct (raise_fault_message tostring first fs s Hfs Ht Hs) as (origin' & Hraise').
    rewrite Hraise in Hraise'. by injection Hraise'.
Qed.

Lemma fault_before_results_witness :
  ∃ origin message,
    Parser_init no_dump api_ns faulty = Raise (WSDLError origin message)
    ∧ (∀ code payload,
         execute no_dump api_ns code payload faulty = Raise (WSDLError origin message))
    ∧ (∀ code payload result_name acceptable_types,
         _execute no_dump api_ns code payload faulty result_name acceptable_types
         = Raise (WSDLError origin message))
    ∧ (∀ first rest fs s,
         iter ∅ faulty fault_tag = first :: rest →
         etree.find first.2 (plain "faultstring") = Some fs →
         text fs = Some s → s ≠ "" → message = s).
Proof.
  apply fault_before_results. apply iter_contains_fault.
  intros H. apply (f_equal length) in H. vm_compute in H. discriminate H.
Defined.

Example faulty_message :
  Parser_init no_dump api_ns faulty = Raise (WSDLError "server" "Zone not found").
Proof. by vm_compute. Qed.

Lemma stored_nil name res : stored name res [] res.
Proof. done. Qed.

Lemma stored_app name res rets1 res1 rets2 res2 :
  stored name res rets1 res1 → stored name res1 rets2 res2 →
  stored name res (rets1 ++ rets2) res2.
Proof.
  unfold stored. rewrite last_app. destruct (last rets2); [done|].
  destruct (last rets1) as [ret|].
  - intros (v & Hv & H1) H2. exists v. by rewrite H2.
  - intros H1 H2. by rewrite H2.
Qed.

Lemma parse_returns_stored name rets : ∀ res res',
  _parse_returns name rets res = Ok res' → stored name res rets res'.
Proof.
  induction rets as [|[scope ret] rest IH]; intros res res'; simpl.
  - by intros [= <-].
  - destruct (decode_wsdl scope ret) as [v|] eqn:Hv; [|done]. simpl.
    intros H. apply IH in H. change ((scope, ret) :: rest) with ([(scope, ret)] ++ rest).
    eapply stored_app; [|done]. exists v. split; [done|]. apply lookup_insert_eq.
Qed.

Lemma parse_returns_other name other rets : ∀ res res',
  other ≠ name →
  _parse_returns other rets res = Ok res' → res' !! name = res !! name.
Proof.
  induction rets as [|[scope ret] rest IH]; intros res res' Hne; simpl.
  - by intros [= <-].
  - destruct (decode_wsdl scope ret) as [v|]; [|done]. simpl.
    intros H. apply IH in H; [|done]. by rewrite H, lookup_insert_ne.
Qed.

Lemma parse_children_stored api scope name cs : ∀ res res',
  _parse_children api scope cs res = Ok res' →
  stored name res
    (child ← filter (fun c => localname (tag c) = name) cs; iter scope child (plain "return"))
    res'.
Proof.
  induction cs as [|child rest IH]; intros res res'; simpl.
  - by intros [= <-].
  - destruct (negb _); [done|].
    destruct (_parse_returns _ _ res) as [res1|] eqn:H1; [|done]. simpl.
    intros H. apply IH in H.
    destruct (decide (localname (tag child) = name)) as [Heq|Hne].
    + rewrite filter_cons_True by done. rewrite bind_cons.
      eapply stored_app; [|done]. rewrite <- Heq. by apply parse_returns_stored.
    + rewrite filter_cons_False by done.
      apply (parse_returns_other name) in H1; [|done].
      unfold stored in *. destruct (last _); [done|]. by rewrite H, H1.
Qed.

Lemma parse_sections_stored api name sections : ∀ res res',
  _parse_sections api sections res = Ok res' →
  stored name res
    (scoped_section ← sections;
     child ← filter (fun c => localname (tag c) = name) (children scoped_section.2);
     iter (etree.nsmap scoped_section.1 scoped_section.2) child (plain "return"))
    res'.
Proof.
  induction sections as [|section rest IH]; intros res res'.
  - by intros [= <-].
  - rewrite bind_cons. cbn [_parse_sections].
    destruct (_parse api res section) as [res1|] eqn:H1; [|done]. cbn [bind].
    intros H. apply IH in H.
    eapply stored_app; [|done]. by apply (parse_children_stored api).
Qed.

(** C8, amended: of several [return] elements under body (or header)
    elements with one local name, the LAST one in document order is the one
    whose decoded value [get_result] (or [get_header]) returns; without such
    an element the lookup raises [KeyError]. *)
Theorem last_return_wins (tostring : Node → string) (api : string) (root : Node)
    (p : Parser) (name : string) :
  Parser_init tostring api root = Ok p →
  match last (returns_of root (qualified _main_ns "Body") name) with
  | Some ret => get_result p name = decode_wsdl ret.1 ret.2
  | None => get_result p name = Raise (KeyError name)
  end
  ∧ match last (returns_of root (qualified _main_ns "Header") name) with
    | Some ret => get_header p name = decode_wsdl ret.1 ret.2
    | None => get_header p name = Raise (KeyError name)
    end.
Proof.
  unfold Parser_init, returns_of.
  destruct (iter ∅ root (qualified _main_ns "Fault")); [|done].
  destruct (_parse_sections api (iter ∅ root (qualified _main_ns "Header")) ∅)
    as [header|] eqn:Hh; [|done].
  destruct (_parse_sections api (iter ∅ root (qualified _main_ns "Body")) ∅)
    as [body|] eqn:Hb; [|done].
  intros [= <-]. unfold get_result, get_header. simpl.
  apply (parse_sections_stored _ name) in Hh, Hb. unfold stored in Hh, Hb.
  split.
  - destruct (last (iter ∅ root (qualified _main_ns "Body") ≫= _)) as [ret|].
    + destruct Hb as (v & -> & ->). done.
    + by rewrite Hb, lookup_empty.
  - destruct (last (iter ∅ root (qualified _main_ns "Header") ≫= _)) as [ret|].
    + destruct Hh as (v & -> & ->). done.
    + by rewrite Hh, lookup_empty.
Qed.

(** C8, counterexample: two body elements called
    [getNumberOfZonesResponse], the first returning 1 and the second 2:
    [get_result] gives 2. *)
Lemma second_return_is_stored :
  Parser_init no_dump api_ns twice = Ok twice_parsed
  ∧ get_result twice_parsed "getNumberOfZonesResponse" = Ok (VInt 2)
  ∧ (decode_wsdl ∅ <$> etree.find (response "getNumberOfZonesResponse" "1") (plain "return"))
    = Some (Ok (VInt 1))
  ∧ ¬ first_return_wins no_dump api_ns twice "getNumberOfZonesResponse".
Proof.
  assert (Parser_init no_dump api_ns twice = Ok twice_parsed) as Hp
    by (vm_compute; reflexivity).
  split; [exact Hp|]. split; [by vm_compute|]. split; [by vm_compute|].
  intros H. specialize (H twice_parsed Hp).
  vm_compute in H. discriminate H.
Qed.

Lemma last_return_wins_witness :
  match last (returns_of twice (qualified _main_ns "Body") "getNumberOfZonesResponse") with
  | Some ret =>
      get_result twice_parsed "getNumberOfZonesResponse" = decode_wsdl ret.1 ret.2
  | None => get_result twice_parsed "getNumberOfZonesResponse"
            = Raise (KeyError "getNumberOfZonesResponse")
  end
  ∧ match last (returns_of twice (qualified _main_ns "Header") "getNumberOfZonesResponse") with
    | Some ret =>
        get_header twice_parsed "getNumberOfZonesResponse" = decode_wsdl ret.1 ret.2
    | None => get_header twice_parsed "getNumberOfZonesResponse"
              = Raise (KeyError "getNumberOfZonesResponse")
    end.
Proof.
  apply (last_return_wins no_dump api_ns twice twice_parsed "getNumberOfZonesResponse").
  vm_compute. reflexivity.
Defined.

(** ** Fetching a record set *)

Lemma foldr_min_spec (x : Z) (l : list Z) :
  foldr Z.min x l ∈ x :: l ∧ ∀ y, y ∈ x :: l → foldr Z.min x l ≤ y.
Proof.
  induction l as [|z l [Hin Hle]]; simpl.
  - split; [apply list_elem_of_here|].
    intros y Hy. apply list_elem_of_singleton in Hy. lia.
  - split.
    + destruct (Z.min_spec z (foldr Z.min x l)) as [[_ ->]|[_ ->]].
      * apply list_elem_of_further, list_elem_of_here.
      * apply elem_of_cons in Hin as [->|Hin];
          [apply list_elem_of_here|by do 2 apply list_elem_of_further].
    + intros y Hy. apply elem_of_cons in Hy as [->|Hy].
      * specialize (Hle x (list_elem_of_here _ _)). lia.
      * apply elem_of_cons in Hy as [->|Hy]; [lia|].
        specialize (Hle y (list_elem_of_further _ _ _ Hy)). lia.
Qed.

(** The [ttl] entry of a fetch is the smallest ttl of the records. *)
Lemma fetched_ttl_is_minimum p records data :
  process_get p records = Ok (Some data) →
  f_ttl data ∈ DNSRecord.ttl <$> records
  ∧ ∀ r, r ∈ records → f_ttl data ≤ DNSRecord.ttl r.
Proof.
  unfold process_get. destruct records as [|r0 rs]; [done|].
  set (records := r0 :: rs). unfold min_star, min_set.
  destruct (elements _) as [|x l] eqn:He; [done|]. simpl. intros [= <-]. simpl.
  destruct (foldr_min_spec x l) as [Hin Hle]. rewrite <- He in Hin, Hle.
  split.
  - apply elem_of_elements in Hin. by apply elem_of_list_to_set in Hin.
  - intros r Hr. apply Hle, elem_of_elements, elem_of_list_to_set.
    by apply list_elem_of_fmap_2.
Qed.

(** Whatever the records, the result of a fetch has no [ttls] entry. *)
Lemma fetched_never_lists_ttls p records data :
  process_get p records = Ok (Some data) ∨ fetch_result p records = Ok (Some data) →
  f_ttls data = None.
Proof.
  unfold process_get, fetch_result. destruct records as [|r rs]; [by intros [|]|].
  destruct (min_star _); simpl; by intros [[= <-]|[= <-]].
Qed.

(** C7: the fetch never reports the set of ttls.  [ttls] is a tuple with one
    component, so [len(ttls) > 1] is false for every record set: for two
    records with the ttls 300 and 600 both modules return the minimum 300 as
    [ttl] and no [ttls] entry. *)
Theorem fetch_two_ttls :
  let records := [sample 1 300 "1.1.1.1"; sample 2 600 "2.2.2.2"] in
  let data := {| f_record := "example.com"; f_type := "A"; f_ttl := 300;
                 f_value := [Some "1.1.1.1"; Some "2.2.2.2"]; f_ttls := None |} in
  run_module (wanted get 3600 [] false) None records = Ok (ExitFetched (Some data))
  ∧ fetch_result (wanted get 3600 [] false) records = Ok (Some data).
Proof. by vm_compute. Qed.

(** ** Parsing the values *)

Lemma parse_value_cases type_in value :
  has_priority type_in = true →
  (∃ v, parse_value type_in value = Ok v ∧ splits_to value v)
  ∨ (parse_value type_in value = Raise ValueError ∧ unreadable value).
Proof.
  intros Ht. unfold parse_value, unreadable, splits_to, Py.split1. rewrite Ht.
  destruct (Py.find " " value) as [i|] eqn:Hi; [|by right].
  destruct (Py.int_of_str (Py.slice_to i value)) as [n|] eqn:Hn; [|by right].
  left. eexists. split; [done|]. by exists i, n.
Qed.

Lemma parse_values_ok type_in value_in : ∀ acc values,
  has_priority type_in = true →
  parse_values type_in value_in acc = Ok values →
  ∃ parsed, values = acc ++ parsed ∧ Forall2 splits_to value_in parsed.
Proof.
  induction value_in as [|value rest IH]; intros acc values Ht; simpl.
  - intros [= <-]. exists []. by rewrite app_nil_r.
  - destruct (parse_value_cases type_in value Ht) as [(v & -> & Hv)|[-> _]]; [|done].
    simpl. intros H. apply IH in H as (parsed & -> & Hp); [|done].
    exists (v :: parsed). rewrite <- app_assoc. split; [done|]. by constructor.
Qed.

Lemma parse_values_raise type_in value_in : ∀ acc,
  has_priority type_in = true →
  Exists unreadable value_in →
  parse_values type_in value_in acc = Raise ValueError.
Proof.
  induction value_in as [|value rest IH]; intros acc Ht Hex; simpl.
  - by apply Exists_nil in Hex.
  - destruct (parse_value_cases type_in value Ht) as [(v & Hv & i & n & Hi & Hn & _)|[-> _]];
      [|done].
    rewrite Hv. simpl. apply IH; [done|].
    apply Exists_cons in Hex as [Hbad|]; [|done].
    unfold unreadable in Hbad. rewrite Hi in Hbad. congruence.
Qed.

Lemma parse_values_complete type_in value_in parsed : ∀ acc,
  has_priority type_in = true →
  Forall2 splits_to value_in parsed →
  parse_values type_in value_in acc = Ok (acc ++ parsed).
Proof.
  intros acc Ht H. revert acc.
  induction H as [|value v value_in parsed (i & n & Hi & Hn & ->) _ IH]; intros acc; simpl.
  - by rewrite app_nil_r.
  - unfold parse_value, Py.split1. rewrite Ht, Hi, Hn. simpl.
    by rewrite IH, <- app_assoc.
Qed.

(** C10: for the types MX and PTR the values are read exactly when each of
    them has a space and an integer before its first space, and each is
    then split there into the priority, converted by [int()], and the
    target; the module goes on to compare the records with these pairs.  As
    soon as one value has no space, or no integer before its first space,
    parsing raises [ValueError], and the module, in the states that parse
    values, ends with that exception before it compares records or calls
    the service. *)
Theorem priority_values_raise (p : params) (prefix : option string)
    (zone_records : list DNSRecord) :
  type_in p = "MX" ∨ type_in p = "PTR" →
  (∀ values, parse_values (type_in p) (value_in p) [] = Ok values
             ↔ Forall2 splits_to (value_in p) values)
  ∧ (∀ values, Forall2 splits_to (value_in p) values → state_in p ≠ get →
       run_module p prefix zone_records
       = reconcile p prefix (filter (selected prefix (type_in p)) zone_records) values)
  ∧ (Exists unreadable (value_in p) →
     parse_values (type_in p) (value_in p) [] = Raise ValueError
     ∧ (state_in p ≠ get →
        run_module p prefix zone_records = Raise ValueError
        ∧ calls p (run_module p prefix zone_records) = [])).
Proof.
  intros Ht.
  assert (has_priority (type_in p) = true) as Hp by (by destruct Ht as [-> | ->]).
  split; [|split].
  - intros values. split.
    + intros H. apply parse_values_ok in H as (parsed & -> & H); done.
    + intros H. by rewrite (parse_values_complete _ _ values [] Hp H).
  - intros values H Hs. unfold run_module. rewrite bool_decide_eq_false_2 by done.
    by rewrite (parse_values_complete _ _ values [] Hp H).
  - intros Hex. pose proof (parse_values_raise _ _ [] Hp Hex) as Hr.
    split; [done|]. intros Hs.
    assert (run_module p prefix zone_records = Raise ValueError) as Hrun.
    { unfold run_module. rewrite bool_decide_eq_false_2 by done. by rewrite Hr. }
    rewrite Hrun. split; [done|]. unfold calls. by destruct (check_mode p).
Qed.

Lemma priority_values_raise_witness :
  parse_values "MX" ["10 mail.example.com"] [] = Ok [(Some 10, Some "mail.example.com")]
  ∧ run_module (wanted_mx ["10 mail.example.com"; "mail.example.com"]) None []
    = Raise ValueError.
Proof.
  split.
  - apply (proj1 (priority_values_raise (wanted_mx ["10 mail.example.com"]) None []
                    (or_introl eq_refl))).
    constructor; [|constructor]. exists 2%nat, 10. by vm_compute.
  - apply (proj2 (proj2 (priority_values_raise
                           (wanted_mx ["10 mail.example.com"; "mail.example.com"]) None []
                           (or_introl eq_refl)))).
    + apply Exists_cons_tl, Exists_cons_hd. vm_compute. exact I.
    + discriminate.
Defined.


(** ** Comparing the records with the values *)

Section comparison.
Variable ttl : Z.

Lemma compare_records_eq records : ∀ values mismatch mismatch_records,
  compare_records ttl records values mismatch mismatch_records =
  (leftover ttl records values,
   mismatch || negb (bool_decide (unmatched ttl records values = [])),
   mismatch_records ++ unmatched ttl records values).
Proof.
  induction records as [|r rest IH]; intros values mm mmr; simpl.
  - by rewrite orb_false_r, app_nil_r.
  - unfold accepts, pair_of.
    destruct (bool_decide (DNSRecord.ttl r = ttl)); simpl.
    + destruct (bool_decide (_ ∈ values)); simpl; rewrite IH.
      * done.
      * by rewrite <- app_assoc, orb_true_r.
    + rewrite IH. by rewrite <- app_assoc, orb_true_r.
Qed.

Lemma list_remove_first_perm (v : pair_value) values :
  v ∈ values → values ≡ₚ v :: list_remove_first v values.
Proof.
  induction values as [|w rest IH]; intros Hin; simpl.
  - by apply elem_of_nil in Hin.
  - case_bool_decide as Hw.
    + by subst.
    + apply elem_of_cons in Hin as [->|Hin]; [done|].
      rewrite (IH Hin) at 1. apply Permutation_swap.
Qed.

Lemma matched_leftover records : ∀ values,
  values ≡ₚ (pair_of <$> matched ttl records values) ++ leftover ttl records values.
Proof.
  induction records as [|r rest IH]; intros values; simpl; [done|].
  unfold accepts. case_bool_decide as Ht; simpl; [|apply IH].
  case_bool_decide as Hin; simpl; [|apply IH].
  rewrite (list_remove_first_perm _ _ Hin) at 1.
  constructor. apply IH.
Qed.

Lemma matched_unmatched records : ∀ values,
  records ≡ₚ matched ttl records values ++ unmatched ttl records values.
Proof.
  induction records as [|r rest IH]; intros values; simpl; [done|].
  destruct (accepts ttl values r); simpl.
  - constructor. apply IH.
  - rewrite <- Permutation_middle. constructor. apply IH.
Qed.

Lemma matched_ttl records : ∀ values,
  Forall (fun r => DNSRecord.ttl r = ttl) (matched ttl records values).
Proof.
  induction records as [|r rest IH]; intros values; simpl; [constructor|].
  unfold accepts. case_bool_decide as Ht; simpl; [|apply IH].
  case_bool_decide; simpl; [|apply IH]. constructor; [done|apply IH].
Qed.

Lemma unmatched_nil_matched records : ∀ values,
  unmatched ttl records values = [] → matched ttl records values = records.
Proof.
  induction records as [|r rest IH]; intros values; simpl; [done|].
  destruct (accepts ttl values r); [|done]. intros H. f_equal. by apply IH.
Qed.

Lemma exact_match_unmatched records : ∀ values,
  exact_match ttl records values →
  unmatched ttl records values = [] ∧ leftover ttl records values = [].
Proof.
  induction records as [|r rest IH]; intros values [Httl Hperm]; simpl.
  - simpl in Hperm. apply Permutation_nil_l in Hperm. by subst.
  - apply Forall_cons in Httl as [Hr Hrest]. simpl in Hperm.
    assert (pair_of r ∈ values) as Hin.
    { rewrite <- Hperm. apply elem_of_cons. by left. }
    unfold accepts. rewrite !bool_decide_eq_true_2 by done. simpl.
    apply IH. split; [done|].
    rewrite (list_remove_first_perm _ _ Hin) in Hperm.
    by apply Permutation_cons_inv in Hperm.
Qed.

Lemma mismatch_of_eq records values :
  mismatch_of ttl records values =
  negb (bool_decide (unmatched ttl records values = [] ∧ leftover ttl records values = [])).
Proof.
  unfold mismatch_of. rewrite compare_records_eq. simpl.
  destruct (leftover ttl records values), (unmatched ttl records values);
    simpl; try done.
  all: symmetry; apply negb_true_iff, bool_decide_eq_false; by intros [].
Qed.

Lemma mismatch_of_false records values :
  mismatch_of ttl records values = false ↔ exact_match ttl records values.
Proof.
  rewrite mismatch_of_eq, negb_false_iff, bool_decide_eq_true. split.
  - intros [Hu Hl]. split.
    + rewrite <- (unmatched_nil_matched _ _ Hu). apply matched_ttl.
    + rewrite (matched_leftover records values), Hl, app_nil_r.
      by rewrite (unmatched_nil_matched _ _ Hu).
  - apply exact_match_unmatched.
Qed.
End comparison.

(** ** Placing the values that are left *)

Lemma pop_nil {A} : pop (@nil A) = None.
Proof. done. Qed.

Lemma pop_snoc {A} (l : list A) x : pop (l ++ [x]) = Some (x, l).
Proof. unfold pop. rewrite reverse_snoc. by rewrite reverse_involutive. Qed.

Lemma planned_finish D C N :
  planned (finish D C N) = (delete_record <$> D) ++ (update_record <$> C) ++ (add_record <$> N).
Proof. by destruct D, C, N. Qed.

Lemma finish_nil D C N :
  finish D C N = Ok ExitUnchanged ↔ D = [] ∧ C = [] ∧ N = [].
Proof.
  split.
  - destruct D, C, N; simpl; intros H; by try discriminate H.
  - by intros (-> & -> & ->).
Qed.

Section placing.
Variables (prefix : option string) (type_in : string) (ttl : Z).

Lemma place_values_eq values : ∀ to_delete to_change to_create,
  place_values prefix type_in ttl values to_delete to_change to_create =
  (take (length to_delete - length values) to_delete,
   to_change ++ zip_with (rewrite_to prefix type_in ttl) (reverse to_delete) values,
   to_create ++ (rewrite_to prefix type_in ttl DNSRecord.new <$> drop (length to_delete) values)).
Proof.
  induction values as [|v rest IH]; intros D C N; simpl.
  - rewrite Nat.sub_0_r, firstn_all, drop_nil. simpl.
    destruct (reverse D); simpl; by rewrite !app_nil_r.
  - destruct D as [|x D' _] using rev_ind.
    + rewrite pop_nil, IH. simpl. rewrite drop_0, <- app_assoc. done.
    + rewrite pop_snoc, IH, reverse_snoc, length_app. simpl.
      rewrite <- app_assoc. simpl.
      replace (length D' + 1 - S (length rest))%nat with (length D' - length rest)%nat by lia.
      rewrite take_app_le by lia.
      replace (length D' + 1)%nat with (S (length D')) by lia. done.
Qed.
End placing.

(** ** The decision *)

Section deciding.
Variables (p : params) (prefix : option string).
Variables (records : list DNSRecord) (values : list pair_value).

Let U := unmatched (ttl_in p) records values.
Let L := leftover (ttl_in p) records values.

Lemma reconcile_absent :
  state_in p = absent →
  reconcile p prefix records values =
  finish (if mismatch_of (ttl_in p) records values then [] else records) [] [].
Proof.
  intros Hs. unfold reconcile, mismatch_of.
  rewrite compare_records_eq. simpl. rewrite Hs. simpl.
  by destruct (leftover _ _ _), (unmatched _ _ _).
Qed.

Lemma reconcile_conflict :
  state_in p = present → overwrite_in p = false → records ≠ [] →
  mismatch_of (ttl_in p) records values = true →
  reconcile p prefix records values = Raise (FailJson conflict_msg).
Proof.
  intros Hs Ho Hr Hm. unfold reconcile. unfold mismatch_of in Hm.
  rewrite compare_records_eq in *. simpl in *. rewrite Hs, Ho. simpl.
  destruct records; [done|]. by rewrite Hm.
Qed.

Lemma unmatched_when_agreeing :
  mismatch_of (ttl_in p) records values = false → U = [] ∧ L = [].
Proof. intros H. by apply exact_match_unmatched, mismatch_of_false. Qed.

Lemma reconcile_present :
  state_in p = present →
  overwrite_in p = true ∨ records = [] ∨ mismatch_of (ttl_in p) records values = false →
  reconcile p prefix records values =
  finish (take (length U - length L) U)
         (zip_with (rewrite_to prefix (type_in p) (ttl_in p)) (reverse U) L)
         (rewrite_to prefix (type_in p) (ttl_in p) DNSRecord.new <$> drop (length U) L).
Proof.
  intros Hs Hcase.
  destruct (mismatch_of (ttl_in p) records values) eqn:Hm.
  - unfold reconcile. unfold mismatch_of in Hm.
    rewrite compare_records_eq in *. simpl in *. rewrite Hs. simpl.
    fold U L in Hm |- *. rewrite Hm.
    destruct records as [|r rest] eqn:Hrec.
    + simpl. rewrite place_values_eq. simpl. subst U. simpl. by destruct L.
    + destruct Hcase as [Ho|[?|?]]; [|done..]. rewrite Ho. simpl.
      rewrite place_values_eq. simpl. by destruct L, U.
  - destruct (unmatched_when_agreeing Hm) as [HU HL].
    unfold reconcile. unfold mismatch_of in Hm.
    rewrite compare_records_eq in *. simpl in *. rewrite Hs. simpl.
    fold U L in Hm |- *. rewrite Hm, HU, HL. by destruct records.
Qed.
End deciding.

(** ** The effect of the calls *)

Lemma apply_calls_cons rs c cs :
  apply_calls rs (c :: cs) = apply_calls (apply_call rs c) cs.
Proof. done. Qed.

Lemma apply_deletes D : ∀ rs,
  apply_calls rs (delete_record <$> D) =
  filter (fun x => DNSRecord.id x ∉ DNSRecord.id <$> D) rs.
Proof.
  induction D as [|d D IH]; intros rs.
  - induction rs as [|r rs IHrs]; [done|].
    rewrite filter_cons_True by apply not_elem_of_nil.
    rewrite <- IHrs. done.
  - rewrite !fmap_cons, apply_calls_cons, IH. clear IH.
    induction rs as [|r rs IHrs]; [done|].
    cbn [apply_call] in *.
    destruct (decide (DNSRecord.id r = DNSRecord.id d)) as [Heq|Hne].
    + rewrite (filter_cons_False (fun x => DNSRecord.id x ≠ _)) by tauto.
      rewrite IHrs, (filter_cons_False _ r); [done|].
      rewrite not_elem_of_cons. tauto.
    + rewrite (filter_cons_True (fun x => DNSRecord.id x ≠ _)) by done.
      destruct (decide (DNSRecord.id r ∈ DNSRecord.id <$> D)) as [Hin|Hin].
      * rewrite !(filter_cons_False _ r); [done|..]; rewrite ?not_elem_of_cons; tauto.
      * rewrite !(filter_cons_True _ r); [by f_equal|..]; rewrite ?not_elem_of_cons; tauto.
Qed.

Lemma apply_updates C : ∀ rs,
  apply_calls rs (update_record <$> C) = (fun x => foldl replaced_by x C) <$> rs.
Proof.
  induction C as [|c C IH]; intros rs; simpl.
  - by rewrite list_fmap_id.
  - unfold apply_calls in *. simpl. rewrite IH, <- list_fmap_compose. done.
Qed.

Lemma apply_adds N : ∀ rs, apply_calls rs (add_record <$> N) = rs ++ N.
Proof.
  induction N as [|n N IH]; intros rs; simpl.
  - by rewrite app_nil_r.
  - unfold apply_calls in *. simpl. rewrite IH, <- app_assoc. done.
Qed.

Lemma apply_planned rs D C N :
  apply_calls rs (planned (finish D C N)) =
  ((fun x => foldl replaced_by x C) <$>
     filter (fun x => DNSRecord.id x ∉ DNSRecord.id <$> D) rs) ++ N.
Proof.
  rewrite planned_finish. unfold apply_calls. rewrite !foldl_app.
  fold (apply_calls rs (delete_record <$> D)). rewrite apply_deletes.
  match goal with |- foldl _ (foldl _ ?l _) _ = _ =>
    fold (apply_calls l (update_record <$> C)); rewrite apply_updates end.
  match goal with |- foldl _ ?l _ = _ =>
    fold (apply_calls l (add_record <$> N)); rewrite apply_adds end.
  done.
Qed.

Lemma replaced_by_none C x :
  DNSRecord.id x ∉ DNSRecord.id <$> C → foldl replaced_by x C = x.
Proof.
  revert x. induction C as [|c C IH]; intros x Hx; simpl; [done|].
  simpl in Hx. apply not_elem_of_cons in Hx as [Hne Hx].
  unfold replaced_by at 2. rewrite bool_decide_eq_false_2 by done. by apply IH.
Qed.

Section rewriting.
Variables (prefix : option string) (type_in : string) (ttl : Z).
Let rw := rewrite_to prefix type_in ttl.

Lemma id_zip_rewrite X : ∀ vs,
  DNSRecord.id <$> zip_with rw X vs = take (length vs) (DNSRecord.id <$> X).
Proof.
  induction X as [|x X IH]; intros [|v vs]; simpl; try done.
  by rewrite IH.
Qed.

Lemma pair_zip_rewrite X : ∀ vs,
  pair_of <$> zip_with rw X vs = take (length X) vs.
Proof.
  induction X as [|x X IH]; intros [|v vs]; simpl; try done.
  rewrite IH. by destruct v.
Qed.

Lemma ttl_zip_rewrite X vs :
  Forall (fun r => DNSRecord.ttl r = ttl) (zip_with rw X vs).
Proof.
  revert vs. induction X as [|x X IH]; intros [|v vs]; simpl; constructor; [done|apply IH].
Qed.

Lemma replaced_by_zip X : ∀ vs,
  NoDup (DNSRecord.id <$> X) → length X = length vs →
  (fun x => foldl replaced_by x (zip_with rw X vs)) <$> X = zip_with rw X vs.
Proof.
  induction X as [|x X IH]; intros [|v vs] Hnd Hlen; simpl in *; try done.
  apply NoDup_cons in Hnd as [Hx Hnd].
  f_equal.
  - unfold replaced_by at 2. rewrite bool_decide_eq_true_2 by done.
    apply replaced_by_none. rewrite id_zip_rewrite. simpl.
    intros Hin. apply Hx. apply elem_of_take in Hin as (i & Hi & _).
    by apply list_elem_of_lookup_2 in Hi.
  - etrans; [|apply (IH vs Hnd); lia].
    apply list_fmap_ext. intros i y Hy. simpl.
    unfold replaced_by at 2. rewrite bool_decide_eq_false_2; [done|].
    intros Heq. apply Hx. change (DNSRecord.id y = DNSRecord.id x) in Heq.
    rewrite <- Heq. apply list_elem_of_fmap.
    exists y. split; [done|]. by apply list_elem_of_lookup_2 in Hy.
Qed.
End rewriting.

Lemma filter_all {A} (P : A → Prop) `{∀ x, Decision (P x)} (l : list A) :
  Forall P l → filter P l = l.
Proof.
  induction 1 as [|x l Hx _ IH]; [done|].
  by rewrite filter_cons_True, IH.
Qed.

Lemma filter_none {A} (P : A → Prop) `{∀ x, Decision (P x)} (l : list A) :
  Forall (fun x => ¬ P x) l → filter P l = [].
Proof.
  induction 1 as [|x l Hx _ IH]; [done|].
  by rewrite filter_cons_False.
Qed.

Lemma zip_with_take_min {A B C} (f : A → B → C) (l : list A) : ∀ k,
  zip_with f (take (length l `min` length k) l) (take (length l `min` length k) k)
  = zip_with f l k.
Proof.
  induction l as [|x l IH]; intros [|y k]; simpl; try done.
  by rewrite IH.
Qed.

Lemma exact_match_content ttl rs rs2 values :
  content <$> rs2 ≡ₚ content <$> rs →
  exact_match ttl rs values → exact_match ttl rs2 values.
Proof.
  intros Hc [Httl Hp]. split.
  - assert (Forall (fun c => c.1 = ttl) (content <$> rs)) as Hf.
    { apply Forall_fmap. by eapply Forall_impl. }
    rewrite <- Hc in Hf. apply Forall_fmap in Hf. by eapply Forall_impl.
  - rewrite <- Hp.
    change pair_of with (snd ∘ content).
    rewrite !list_fmap_compose. by rewrite Hc.
Qed.

Section converging.
Variables (prefix : option string) (type_in : string) (ttl : Z).
Variables (records : list DNSRecord) (values : list pair_value).
Hypothesis ids : NoDup (DNSRecord.id <$> records).

Let rw := rewrite_to prefix type_in ttl.
Let M := matched ttl records values.
Let U := unmatched ttl records values.
Let L := leftover ttl records values.
Let D := take (length U - length L) U.
Let C := zip_with rw (reverse U) L.
Let N := rw DNSRecord.new <$> drop (length U) L.

Lemma placed_pairs : pair_of <$> (C ++ N) = L.
Proof.
  rewrite fmap_app. unfold C, N, rw. rewrite pair_zip_rewrite, length_reverse.
  rewrite <- list_fmap_compose.
  rewrite (list_fmap_ext _ id (drop (length U) L)), list_fmap_id.
  - apply take_drop.
  - by intros i [] _.
Qed.

Lemma placed_ttl : Forall (fun r => DNSRecord.ttl r = ttl) (C ++ N).
Proof.
  unfold C, N, rw. apply Forall_app. split; [apply ttl_zip_rewrite|].
  apply Forall_fmap. by apply Forall_true.
Qed.

Lemma ids_split :
  NoDup (DNSRecord.id <$> U) ∧
  ∀ x, x ∈ M → DNSRecord.id x ∉ DNSRecord.id <$> U.
Proof.
  pose proof (matched_unmatched ttl records values) as Hp.
  fold M U in Hp. rewrite Hp, fmap_app in ids.
  apply NoDup_app in ids as (_ & Hd & HU). split; [done|].
  intros x Hx. apply Hd. by apply list_elem_of_fmap_2.
Qed.

Lemma replaced_records :
  (fun x => foldl replaced_by x C) <$>
    filter (fun x => DNSRecord.id x ∉ DNSRecord.id <$> D) records ≡ₚ M ++ C.
Proof.
  destruct ids_split as [HU HM]. unfold rw in *.
  set (k := (length U - length L)%nat).
  set (U2 := drop k U).
  assert (U = D ++ U2) as HUsplit by (symmetry; apply take_drop).
  assert (C = zip_with (rewrite_to prefix type_in ttl) (reverse U2) (take (length U2) L)) as HC.
  { unfold C, U2. rewrite <- (zip_with_take_min _ (reverse U) L).
    rewrite reverse_drop, length_drop, length_reverse.
    unfold k. f_equal; f_equal; lia. }
  assert (length (reverse U2) = length (take (length U2) L)) as Hlen.
  { rewrite length_reverse, length_take. subst U2 k. rewrite length_drop. lia. }
  assert (NoDup (DNSRecord.id <$> reverse U2)) as HndU2.
  { rewrite reverse_Permutation. rewrite HUsplit, fmap_app in HU.
    by apply NoDup_app in HU as (_ & _ & ?). }
  rewrite (matched_unmatched ttl records values) at 1. fold M U.
  rewrite HUsplit at 1. rewrite !filter_app, !fmap_app.
  rewrite (filter_none _ D), app_nil_l.
  2:{ apply Forall_forall. intros x Hx Hn. apply Hn. by apply list_elem_of_fmap_2. }
  rewrite (filter_all _ M).
  2:{ apply Forall_forall. intros x Hx Hin. apply (HM x Hx).
      rewrite HUsplit, fmap_app. apply elem_of_app. by left. }
  rewrite (filter_all _ U2).
  2:{ apply Forall_forall. intros x Hx Hin.
      rewrite HUsplit, fmap_app in HU. apply NoDup_app in HU as (_ & Hd & _).
      apply (Hd _ Hin). by apply list_elem_of_fmap_2. }
  apply Permutation_app.
  - rewrite (list_fmap_ext _ id M), list_fmap_id; [done|].
    intros i x Hx. apply replaced_by_none.
    rewrite HC, id_zip_rewrite. intros Hin.
    apply elem_of_take in Hin as (j & Hj & _).
    apply list_elem_of_lookup_2 in Hj. rewrite reverse_Permutation in Hj.
    apply (HM x); [by apply list_elem_of_lookup_2 in Hx|].
    rewrite HUsplit, fmap_app. apply elem_of_app. by right.
  - rewrite <- (reverse_Permutation U2) at 1.
    rewrite HC. by rewrite (replaced_by_zip _ _ _ _ _ HndU2 Hlen).
Qed.

Lemma placed_converges :
  exact_match ttl (apply_calls records (planned (finish D C N))) values.
Proof.
  rewrite apply_planned. split.
  - rewrite replaced_records, <- app_assoc. apply Forall_app. split.
    + apply matched_ttl.
    + apply placed_ttl.
  - rewrite replaced_records, <- app_assoc, fmap_app, placed_pairs.
    symmetry. apply matched_leftover.
Qed.
End converging.

(** ** Conflicts and deletions *)

Lemma unmatched_sublist ttl records : ∀ values,
  unmatched ttl records values `sublist_of` records.
Proof.
  induction records as [|r rest IH]; intros values; simpl; [constructor|].
  destruct (accepts ttl values r); [apply sublist_cons, IH|apply sublist_skip, IH].
Qed.

Lemma mismatch_of_true ttl records values :
  mismatch_of ttl records values = true ↔ ¬ exact_match ttl records values.
Proof.
  rewrite <- mismatch_of_false. by destruct (mismatch_of _ _ _).
Qed.

Lemma ids_placed (U : list DNSRecord) (n : nat) :
  (DNSRecord.id <$> take (length U - n) U)
  ++ reverse (take n (DNSRecord.id <$> reverse U)) = DNSRecord.id <$> U.
Proof.
  rewrite fmap_reverse, take_reverse, reverse_involutive, length_fmap, fmap_take.
  apply take_drop.
Qed.

(** C3, amended: in state [present] without [overwrite], when there is at
    least one candidate record and the candidates are not exactly the wanted
    records, the module fails with the conflict message and calls the
    service for nothing. *)
Theorem conflict_without_overwrite (p : params) (prefix : option string)
    (records : list DNSRecord) (values : list pair_value) :
  state_in p = present → overwrite_in p = false → records ≠ [] →
  ¬ exact_match (ttl_in p) records values →
  reconcile p prefix records values = Raise (FailJson conflict_msg)
  ∧ calls p (reconcile p prefix records values) = [].
Proof.
  intros Hs Ho Hr Hm. apply mismatch_of_true in Hm.
  rewrite (reconcile_conflict _ _ _ _ Hs Ho Hr Hm). split; [done|].
  unfold calls. by destruct (check_mode p).
Qed.

Lemma conflict_without_overwrite_witness :
  reconcile (wanted present 7200 ["2.2.2.2"] false) None [sample 1 3600 "1.1.1.1"]
    [(None, Some "2.2.2.2")] = Raise (FailJson conflict_msg)
  ∧ calls (wanted present 7200 ["2.2.2.2"] false)
      (reconcile (wanted present 7200 ["2.2.2.2"] false) None [sample 1 3600 "1.1.1.1"]
         [(None, Some "2.2.2.2")]) = [].
Proof.
  apply conflict_without_overwrite; [reflexivity|reflexivity|discriminate|].
  apply mismatch_of_true. vm_compute. reflexivity.
Defined.

(** C3, counterexample: no candidate record and one wanted value, without
    [overwrite]: the wanted value is left unmatched, and yet the module does
    not fail but creates the record. *)
Lemma no_records_no_conflict :
  let p := wanted present 7200 ["2.2.2.2"] false in
  let created := assign DNSRecord.new None "A" 7200 (None, Some "2.2.2.2") in
  ¬ exact_match (ttl_in p) [] [(None, Some "2.2.2.2")]
  ∧ run_module p None [] = Ok (ExitChanged [] [] [created])
  ∧ reconcile p None [] [(None, Some "2.2.2.2")] = Ok (ExitChanged [] [] [created])
  ∧ calls p (reconcile p None [] [(None, Some "2.2.2.2")]) = [add_record created].
Proof.
  split; [|by vm_compute].
  apply mismatch_of_true. by vm_compute.
Qed.

(** C5: in state [absent], when the candidates are exactly the wanted
    records (every ttl is the wanted one and the values are the wanted
    values, each as often as wanted) every candidate is deleted; otherwise
    nothing is deleted, updated or created. *)
Theorem absent_deletes_exact_match_only (p : params) (prefix : option string)
    (records : list DNSRecord) (values : list pair_value) :
  state_in p = absent →
  (exact_match (ttl_in p) records values →
   planned (reconcile p prefix records values) = delete_record <$> records)
  ∧ (¬ exact_match (ttl_in p) records values →
     reconcile p prefix records values = Ok ExitUnchanged
     ∧ planned (reconcile p prefix records values) = []).
Proof.
  intros Hs. rewrite reconcile_absent by done. split.
  - intros He. apply mismatch_of_false in He. rewrite He, planned_finish.
    simpl. by rewrite app_nil_r.
  - intros He. apply mismatch_of_true in He. by rewrite He.
Qed.

Lemma absent_deletes_exact_match_only_witness :
  planned (reconcile (wanted absent 3600 ["1.1.1.1"; "2.2.2.2"] false) None
             [sample 1 3600 "1.1.1.1"; sample 2 3600 "2.2.2.2"]
             [(None, Some "2.2.2.2"); (None, Some "1.1.1.1")])
  = [delete_record (sample 1 3600 "1.1.1.1"); delete_record (sample 2 3600 "2.2.2.2")]
  ∧ planned (reconcile (wanted absent 3600 ["1.1.1.1"] false) None
               [sample 1 3600 "1.1.1.1"; sample 2 3600 "2.2.2.2"]
               [(None, Some "1.1.1.1")]) = [].
Proof.
  split.
  - apply (absent_deletes_exact_match_only
             (wanted absent 3600 ["1.1.1.1"; "2.2.2.2"] false)); [reflexivity|].
    apply mismatch_of_false. vm_compute. reflexivity.
  - apply (absent_deletes_exact_match_only (wanted absent 3600 ["1.1.1.1"] false));
      [reflexivity|].
    apply mismatch_of_true. vm_compute. reflexivity.
Defined.

(** ** Overwriting *)

Lemma carries_zip p prefix X vs :
  Forall (carries p prefix) (zip_with (rewrite_to prefix (type_in p) (ttl_in p)) X vs).
Proof.
  revert vs. induction X as [|x X IH]; intros [|v vs]; simpl; constructor; [done|apply IH].
Qed.

Lemma finish_changed D C N :
  ¬ (D = [] ∧ C = [] ∧ N = []) → finish D C N = Ok (ExitChanged D C N).
Proof. destruct D, C, N; simpl; tauto. Qed.

(** C4: in state [present] with [overwrite] and a mismatch, as many
    mismatched candidates as there are leftover values are updated, each to
    one leftover value; the other mismatched candidates are deleted, the
    other leftover values are created; the updated and created records carry
    the leftover values in their order and the wanted ttl, prefix and type.
    One candidate with another ttl and target and one wanted value give one
    update and nothing else. *)
Theorem overwrite_reuses_records :
  (∀ (p : params) (prefix : option string) (records : list DNSRecord)
     (values : list pair_value),
     state_in p = present → overwrite_in p = true →
     ¬ exact_match (ttl_in p) records values →
     let '(pool, _, to_replace) := compare_records (ttl_in p) records values false [] in
     ∃ to_delete to_change to_create,
       reconcile p prefix records values = Ok (ExitChanged to_delete to_change to_create)
       ∧ length to_change = (length to_replace `min` length pool)%nat
       ∧ length to_delete = (length to_replace - length pool)%nat
       ∧ length to_create = (length pool - length to_replace)%nat
       ∧ (DNSRecord.id <$> to_delete) ++ (DNSRecord.id <$> to_change)
           ≡ₚ DNSRecord.id <$> to_replace
       ∧ to_delete ⊆ to_replace
       ∧ pair_of <$> (to_change ++ to_create) = pool
       ∧ Forall (carries p prefix) (to_change ++ to_create)
       ∧ Forall (fun r => DNSRecord.id r = None) to_create)
  ∧ reconcile (wanted present 7200 ["2.2.2.2"] true) None [sample 1 3600 "1.1.1.1"]
      [(None, Some "2.2.2.2")]
    = Ok (ExitChanged []
            [assign (sample 1 3600 "1.1.1.1") None "A" 7200 (None, Some "2.2.2.2")] []).
Proof.
  split; [|by vm_compute].
  intros p prefix records values Hs Ho Hm.
  rewrite compare_records_eq. simpl.
  set (U := unmatched (ttl_in p) records values).
  set (L := leftover (ttl_in p) records values).
  pose proof (reconcile_present p prefix records values Hs (or_introl Ho)) as Hrec.
  fold U L in Hrec.
  exists (take (length U - length L) U),
    (zip_with (rewrite_to prefix (type_in p) (ttl_in p)) (reverse U) L),
    (rewrite_to prefix (type_in p) (ttl_in p) DNSRecord.new <$> drop (length U) L).
  split; [|split; [|split; [|split; [|split; [|split; [|split; [|split]]]]]]].
  - rewrite Hrec. apply finish_changed.
    apply mismatch_of_true in Hm. rewrite mismatch_of_eq in Hm.
    apply negb_true_iff, bool_decide_eq_false in Hm. fold U L in Hm.
    intros (HD & HC & HN). apply Hm.
    destruct U as [|u U'], L as [|l L']; simpl in *; try done.
    destruct (reverse (u :: U')) eqn:Hrev; [|done].
    by apply (f_equal length) in Hrev; rewrite length_reverse in Hrev.
  - by rewrite length_zip_with, length_reverse.
  - rewrite length_take. lia.
  - by rewrite length_fmap, length_drop.
  - rewrite id_zip_rewrite.
    transitivity ((DNSRecord.id <$> take (length U - length L) U)
                  ++ reverse (take (length L) (DNSRecord.id <$> reverse U))).
    + apply Permutation_app; [done|]. symmetry. apply reverse_Permutation.
    + by rewrite ids_placed.
  - intros x Hx. by apply elem_of_take in Hx as (i & ?%list_elem_of_lookup_2 & _).
  - apply placed_pairs.
  - apply Forall_app. split; [apply carries_zip|].
    apply Forall_fmap. by apply Forall_true.
  - apply Forall_fmap. by apply Forall_true.
Qed.

Lemma overwrite_reuses_records_witness :
  ∃ to_delete to_change to_create,
    reconcile (wanted present 7200 ["2.2.2.2"] true) None
      [sample 1 3600 "1.1.1.1"; sample 2 3600 "3.3.3.3"] [(None, Some "2.2.2.2")]
    = Ok (ExitChanged to_delete to_change to_create)
    ∧ length to_change = 1%nat ∧ length to_delete = 1%nat ∧ length to_create = 0%nat.
Proof.
  pose proof (proj1 overwrite_reuses_records (wanted present 7200 ["2.2.2.2"] true) None
      [sample 1 3600 "1.1.1.1"; sample 2 3600 "3.3.3.3"] [(None, Some "2.2.2.2")]
      eq_refl eq_refl) as H.
  destruct H as (D & C & N & H1 & H2 & H3 & H4 & _).
  - apply mismatch_of_true. vm_compute. reflexivity.
  - exists D, C, N. auto.
Defined.

(** C9: in state [present] with [overwrite] the leftover values take the
    mismatched candidates from the end of their list, which is in the order
    of the input: the i-th leftover value rewrites the i-th mismatched
    candidate counted from the last, and the candidates that are deleted are
    the first of the list. *)
Theorem overwrite_takes_last_first (p : params) (prefix : option string)
    (records : list DNSRecord) (values : list pair_value) :
  state_in p = present → overwrite_in p = true →
  let '(pool, _, mismatch_records) :=
    compare_records (ttl_in p) records values false [] in
  mismatch_records `sublist_of` records
  ∧ reconcile p prefix records values =
    finish
      (take (length mismatch_records - length pool) mismatch_records)
      (zip_with (fun record v => assign record prefix (type_in p) (ttl_in p) v)
         (reverse mismatch_records) pool)
      ((assign DNSRecord.new prefix (type_in p) (ttl_in p))
         <$> drop (length mismatch_records) pool).
Proof.
  intros Hs Ho. rewrite compare_records_eq. simpl. split.
  - apply unmatched_sublist.
  - by apply reconcile_present; auto.
Qed.

Lemma overwrite_takes_last_first_witness :
  reconcile (wanted present 3600 ["9.9.9.9"] true) None
    [sample 1 3600 "1.1.1.1"; sample 2 3600 "2.2.2.2"; sample 3 3600 "3.3.3.3"]
    [(None, Some "9.9.9.9")]
  = Ok (ExitChanged [sample 1 3600 "1.1.1.1"; sample 2 3600 "2.2.2.2"]
          [sample 3 3600 "9.9.9.9"] []).
Proof.
  apply (overwrite_takes_last_first (wanted present 3600 ["9.9.9.9"] true) None
    [sample 1 3600 "1.1.1.1"; sample 2 3600 "2.2.2.2"; sample 3 3600 "3.3.3.3"]
    [(None, Some "9.9.9.9")] eq_refl eq_refl).
Defined.

(** ** Idempotency *)

Lemma reconcile_get p prefix records values :
  state_in p = get → reconcile p prefix records values = Ok ExitUnchanged.
Proof.
  intros Hs. unfold reconcile. rewrite compare_records_eq. simpl. by rewrite Hs.
Qed.

Lemma mismatch_of_content ttl rs rs2 values :
  content <$> rs2 ≡ₚ content <$> rs →
  mismatch_of ttl rs2 values = mismatch_of ttl rs values.
Proof.
  intros Hc.
  destruct (mismatch_of ttl rs values) eqn:Hm.
  - apply not_false_iff_true. intros H2. apply mismatch_of_false in H2.
    apply (exact_match_content _ _ rs) in H2; [|done].
    apply mismatch_of_false in H2. congruence.
  - apply mismatch_of_false. apply mismatch_of_false in Hm.
    by apply (exact_match_content _ rs).
Qed.

Lemma reconcile_agreeing p prefix records values :
  mismatch_of (ttl_in p) records values = false →
  state_in p = absent → records = [] →
  reconcile p prefix records values = Ok ExitUnchanged.
Proof. intros Hm Hs ->. rewrite reconcile_absent by done. by destruct (mismatch_of _ _ _). Qed.

Lemma reconcile_converged p prefix records values :
  state_in p = present →
  exact_match (ttl_in p) records values →
  reconcile p prefix records values = Ok ExitUnchanged.
Proof.
  intros Hs He. apply mismatch_of_false in He.
  rewrite reconcile_present by auto.
  destruct (unmatched_when_agreeing _ _ _ He) as [-> ->]. done.
Qed.

Lemma present_applied p prefix records values :
  state_in p = present →
  overwrite_in p = true ∨ records = [] ∨ mismatch_of (ttl_in p) records values = false →
  NoDup (DNSRecord.id <$> records) →
  exact_match (ttl_in p)
    (apply_calls records (planned (reconcile p prefix records values))) values.
Proof.
  intros Hs Hcase Hnd. rewrite reconcile_present by done.
  by apply placed_converges.
Qed.

Lemma content_length rs rs2 :
  content <$> rs2 ≡ₚ content <$> rs → length rs2 = length rs.
Proof. intros H. apply Permutation_length in H. by rewrite !length_fmap in H. Qed.

Lemma is_Ok_finish D C N : is_Ok (finish D C N) = true.
Proof. by destruct D, C, N. Qed.

(** C2: reconciliation is idempotent.  Apply the calls that a run plans to
    the candidate records (whose ids are distinct) and run again on any
    record set with the resulting contents: the second run plans no call.
    It ends with [changed=False] whenever the first run did not fail; when
    the first run failed, with the conflict message and nothing applied, the
    second run fails in the same way. *)
Theorem reconcile_idempotent (p : params) (prefix : option string)
    (records records2 : list DNSRecord) (values : list pair_value) :
  NoDup (DNSRecord.id <$> records) →
  content <$> records2 ≡ₚ
    content <$> apply_calls records (planned (reconcile p prefix records values)) →
  planned (reconcile p prefix records2 values) = []
  ∧ (is_Ok (reconcile p prefix records values) = true →
     reconcile p prefix records2 values = Ok ExitUnchanged)
  ∧ (is_Ok (reconcile p prefix records values) = false →
     reconcile p prefix records2 values = reconcile p prefix records values).
Proof.
  intros Hnd Hc.
  destruct (state_in p) eqn:Hs.
  - (* present *)
    destruct (decide (overwrite_in p = true ∨ records = []
                      ∨ mismatch_of (ttl_in p) records values = false)) as [Hcase|Hcase].
    + pose proof (present_applied p prefix records values Hs Hcase Hnd) as He.
      apply (exact_match_content _ _ records2) in He; [|done].
      rewrite (reconcile_converged _ _ _ _ Hs He).
      rewrite (reconcile_present p prefix records values Hs Hcase), is_Ok_finish.
      done.
    + assert (overwrite_in p = false) as Ho
        by (destruct (overwrite_in p); tauto).
      assert (records ≠ []) as Hr by tauto.
      assert (mismatch_of (ttl_in p) records values = true) as Hm
        by (destruct (mismatch_of _ _ _); tauto).
      rewrite (reconcile_conflict _ _ _ _ Hs Ho Hr Hm) in Hc |- *.
      simpl in Hc. rewrite reconcile_conflict; try done.
      * intros ->. apply content_length in Hc. by destruct records.
      * by rewrite (mismatch_of_content _ _ _ _ Hc).
  - (* absent *)
    rewrite (reconcile_absent p prefix records values Hs) in Hc |- *.
    rewrite is_Ok_finish.
    destruct (mismatch_of (ttl_in p) records values) eqn:Hm.
    + simpl in Hc. rewrite (reconcile_absent p prefix records2 values Hs).
      by rewrite (mismatch_of_content _ _ _ _ Hc), Hm.
    + rewrite apply_planned, app_nil_r, filter_none in Hc.
      * apply content_length in Hc. destruct records2; [|done].
        rewrite (reconcile_absent p prefix [] values Hs).
        by destruct (mismatch_of _ [] _).
      * apply Forall_forall. intros x Hx Hn. apply Hn. by apply list_elem_of_fmap_2.
  - (* get *)
    by rewrite !reconcile_get.
Qed.

Lemma reconcile_idempotent_witness :
  planned (reconcile (wanted present 7200 ["2.2.2.2"] true) None
             [sample 2 7200 "2.2.2.2"] [(None, Some "2.2.2.2")]) = []
  ∧ (is_Ok (reconcile (wanted present 7200 ["2.2.2.2"] true) None
              [sample 1 3600 "1.1.1.1"; sample 2 3600 "3.3.3.3"]
              [(None, Some "2.2.2.2")]) = true →
     reconcile (wanted present 7200 ["2.2.2.2"] true) None
       [sample 2 7200 "2.2.2.2"] [(None, Some "2.2.2.2")] = Ok ExitUnchanged)
  ∧ (is_Ok (reconcile (wanted present 7200 ["2.2.2.2"] true) None
              [sample 1 3600 "1.1.1.1"; sample 2 3600 "3.3.3.3"]
              [(None, Some "2.2.2.2")]) = false →
     reconcile (wanted present 7200 ["2.2.2.2"] true) None
       [sample 2 7200 "2.2.2.2"] [(None, Some "2.2.2.2")]
     = reconcile (wanted present 7200 ["2.2.2.2"] true) None
         [sample 1 3600 "1.1.1.1"; sample 2 3600 "3.3.3.3"] [(None, Some "2.2.2.2")]).
Proof.
  apply (reconcile_idempotent (wanted present 7200 ["2.2.2.2"] true) None
           [sample 1 3600 "1.1.1.1"; sample 2 3600 "3.3.3.3"]).
  - apply (bool_decide_unpack _). vm_compute. exact I.
  - vm_compute. reflexivity.
Defined.

(** * Further properties *)

(** ** Strings *)

Lemma slice_to_app (pre t : string) :
  Py.slice_to (String.length pre) (pre +:+ t) = pre.
Proof. induction pre as [|a pre IH]; simpl; [by destruct t|]. by rewrite IH. Qed.

Lemma slice_from_app (pre t : string) (a : ascii) :
  Py.slice_from (S (String.length pre)) (pre +:+ String a t) = t.
Proof. induction pre as [|b pre IH]; simpl; [by destruct t|]. exact IH. Qed.

(** ** What the encoder accepts *)

Lemma encode_elts_total elts :
  Forall encodes elts → ∀ node,
  match encode_elts encode_wsdl node elts with
  | Ok node' =>
      forallb encodable elts = true ∧ forallb xml_value elts = true
      ∧ tag node' = tag node
  | Raise e => refused (forallb encodable elts) (forallb xml_value elts) e
  end.
Proof.
  unfold refused. induction 1 as [|x elts Hx _ IH]; intros node; simpl; [done|].
  specialize (Hx (etree.new (plain "item"))).
  destruct (encode_wsdl (etree.new (plain "item")) x) as [child|e]; simpl.
  - destruct Hx as (-> & -> & _). specialize (IH (etree.append node child)).
    by destruct (encode_elts encode_wsdl (etree.append node child) elts).
  - destruct Hx as [[-> ->]|[-> ->]]; [by left|]. right. by rewrite andb_false_l.
Qed.

Lemma encode_items_total items :
  Forall (fun kv => encodes kv.1 ∧ encodes kv.2) items → ∀ node,
  match encode_items encode_wsdl node items with
  | Ok node' =>
      forallb (fun kv => encodable kv.1 && encodable kv.2) items = true
      ∧ forallb (fun kv => xml_value kv.1 && xml_value kv.2) items = true
      ∧ tag node' = tag node
  | Raise e =>
      refused (forallb (fun kv => encodable kv.1 && encodable kv.2) items)
        (forallb (fun kv => xml_value kv.1 && xml_value kv.2) items) e
  end.
Proof.
  unfold refused.
  induction 1 as [|[k x] items [Hk Hx] _ IH]; intros node; simpl in *; [done|].
  specialize (Hk (etree.new (plain "key"))).
  specialize (Hx (etree.new (plain "value"))).
  destruct (encode_wsdl (etree.new (plain "key")) k) as [ke|e]; simpl.
  - destruct Hk as (-> & -> & _).
    destruct (encode_wsdl (etree.new (plain "value")) x) as [ve|e]; simpl.
    + destruct Hx as (-> & -> & _).
      match goal with |- context [encode_items _ ?n items] => specialize (IH n) end.
      by destruct (encode_items encode_wsdl _ items).
    + destruct Hx as [[-> ->]|[-> ->]]; [by left|by right].
  - destruct Hk as [[-> ->]|[-> ->]]; [by left|by right].
Qed.

Lemma encodes_all (v : value) : encodes v.
Proof.
  induction v as [|s|z|b| |items IH|elts IH] using value_nested_ind; intros node.
  - done.
  - rewrite encode_wsdl_unfold. simpl. unfold etree.set_text, refused.
    destruct (etree.xml_text s); [done|by right].
  - rewrite encode_wsdl_unfold. simpl. by rewrite set_text_int.
  - rewrite encode_wsdl_unfold. simpl. by destruct b.
  - by left.
  - rewrite encode_wsdl_unfold. cbn [is_None isinstance_str isinstance_int isinstance_bool].
    pose proof (encode_items_total items IH
                  (_set_type node _NAMESPACE_XML_SOAP "Map")) as H.
    cbn [encodable xml_value]. by destruct (encode_items encode_wsdl _ items).
  - rewrite encode_wsdl_unfold. cbn [is_None isinstance_str isinstance_int isinstance_bool].
    pose proof (encode_elts_total elts IH
                  (_set_type node _NAMESPACE_XML_SOAP_ENCODING "Array")) as H.
    cbn [encodable xml_value]. by destruct (encode_elts encode_wsdl _ elts).
Qed.

(** X1: [encode_wsdl] succeeds exactly on the values that hold, at any
    depth, no object of a kind the codec does not know and no string that
    lxml refuses as text (booleans included), and it then leaves the tag of
    the element as it was.  When it fails, it is with the error that a
    value cannot be encoded, and the value holds such an object, or with the
    [ValueError] of lxml, and the value holds such a string. *)
Theorem encode_succeeds_on_accepted_values_only (node : Node) (v : value) :
  is_Ok (encode_wsdl node v) = encodable v && xml_value v
  ∧ (∀ node', encode_wsdl node v = Ok node' → tag node' = tag node)
  ∧ (∀ e, encode_wsdl node v = Raise e →
       (e = WSDLCodingException CannotEncode ∧ encodable v = false)
       ∨ (e = ValueError ∧ xml_value v = false)).
Proof.
  pose proof (encodes_all v node) as H.
  destruct (encode_wsdl node v) as [node'|e]; simpl.
  - destruct H as (-> & -> & Htag). split; [done|]. split; [|done].
    by intros ? [= <-].
  - split; [|split; [done|]].
    + destruct H as [[_ ->]|[_ ->]]; [done|]. by rewrite andb_false_r.
    + by intros ? [= <-].
Qed.

Section decoded.
Variable P : value → bool.
Hypothesis P_dict : ∀ items, P (VDict items) = forallb (fun kv => P kv.1 && P kv.2) items.
Hypothesis P_list : ∀ elts, P (VList elts) = forallb P elts.

Lemma dict_set_passes k v res :
  P k = true → P v = true →
  forallb (fun kv => P kv.1 && P kv.2) res = true →
  forallb (fun kv => P kv.1 && P kv.2) (dict_set k v res) = true.
Proof.
  intros Hk Hv. induction res as [|[k' v'] res IH]; simpl.
  - by rewrite Hk, Hv.
  - intros [[Hk' Hv']%andb_true_iff Hres]%andb_true_iff.
    destruct (key_eqb k' k); simpl.
    + by rewrite Hk', Hv, Hres.
    + by rewrite Hk', Hv', IH.
Qed.

Lemma decode_found_passes scope name missing cs v :
  Forall (decodes_to P) cs →
  decode_found decode_wsdl scope name missing cs = Ok v → P v = true.
Proof.
  induction 1 as [|c cs Hc _ IH]; simpl; [done|].
  case_bool_decide; [apply Hc|apply IH].
Qed.

Lemma decode_array_passes scope items : ∀ res v,
  Forall (decodes_to P) items →
  forallb P res = true →
  decode_array decode_wsdl scope items res = Ok v → P v = true.
Proof.
  induction items as [|item items IH]; intros res v Hall Hres; simpl.
  - intros [= <-]. by rewrite P_list.
  - apply Forall_cons in Hall as [Hitem Hall].
    destruct (negb _); [done|].
    destruct (decode_wsdl scope item) as [x|] eqn:Hx; [|done]. simpl.
    apply IH; [done|]. rewrite forallb_app, Hres. simpl.
    by rewrite (Hitem _ _ Hx).
Qed.

Lemma decode_map_passes scope items : ∀ res v,
  Forall (fun item => Forall (decodes_to P) (children item)) items →
  forallb (fun kv => P kv.1 && P kv.2) res = true →
  decode_map decode_wsdl scope items res = Ok v → P v = true.
Proof.
  induction items as [|item items IH]; intros res v Hall Hres; simpl.
  - intros [= <-]. by rewrite P_dict.
  - apply Forall_cons in Hall as [Hitem Hall].
    destruct (negb _); [done|].
    destruct (decode_found _ _ (plain "key") _ _) as [k|] eqn:Hk; [|done]. simpl.
    destruct (decode_found _ _ (plain "value") _ _) as [x|] eqn:Hx; [|done]. simpl.
    destruct (hashable k); [|done].
    apply IH; [done|]. apply dict_set_passes; [| |done].
    + by eapply decode_found_passes.
    + by eapply decode_found_passes.
Qed.

(** An element decodes to a value that passes [P] when its children and
    theirs do, and its text, read as a string, does. *)
Lemma decode_passes t d a txt kids :
  P VNone = true → (∀ b, P (VBool b) = true) → (∀ z, P (VInt z) = true) →
  P (text_value txt) = true →
  Forall (fun kid => decodes_to P kid ∧ Forall (decodes_to P) (children kid)) kids →
  decodes_to P (Element t d a txt kids).
Proof.
  intros HNone HBool HInt Htxt IH.
  assert (Forall (decodes_to P) kids) as Hkids
    by (eapply Forall_impl; [exact IH|]; by intros ? []).
  intros scope v. rewrite decode_wsdl_unfold.
  case_bool_decide; [by intros [= <-]|].
  destruct (etree.get _ xsi_type) as [type_with_ns|]; [|done].
  destruct (_split_text_namespace _ _ _) as [type [ns|]]; [|done].
  repeat (match goal with |- context [if ?b then _ else _] => destruct b end);
    try done; try (intros [= <-]; by auto).
  - simpl. unfold py_int_text. destruct txt as [s|]; [|done].
    destruct (Py.int_of_str s); [|done]. intros [= <-]. apply HInt.
  - apply (decode_map_passes _ kids []); [|done].
    eapply Forall_impl; [exact IH|]. by intros ? [].
  - by apply (decode_array_passes _ kids []).
Qed.
End decoded.

Lemma decodes_encodable_all (node : Node) :
  decodes_to encodable node ∧ Forall (decodes_to encodable) (children node).
Proof.
  induction node as [t d a txt kids IH] using Node_nested_ind.
  split; [|eapply Forall_impl; [exact IH|]; by intros ? []].
  apply decode_passes; try done. by destruct txt.
Qed.

Lemma decodes_xml_all (node : Node) :
  xml_node node = true →
  decodes_to xml_value node ∧ Forall (decodes_to xml_value) (children node).
Proof.
  induction node as [t d a txt kids IH] using Node_nested_ind. simpl.
  intros [Htxt Hkids]%andb_true_iff.
  assert (Forall (fun kid => decodes_to xml_value kid
                             ∧ Forall (decodes_to xml_value) (children kid)) kids) as Hall.
  { rewrite forallb_forall in Hkids. rewrite Forall_forall in IH |- *.
    intros kid Hin. apply IH; [done|]. apply Hkids. by apply list_elem_of_In. }
  split; [|eapply Forall_impl; [exact Hall|]; by intros ? []].
  apply decode_passes; try done. by destruct txt.
Qed.

(** X2: whatever [decode_wsdl] returns for an element, under any
    namespace scope, holds no object of a kind the codec does not know; and
    when the element is one of lxml (every text in it is text that lxml
    accepts), the value is one that [encode_wsdl] accepts, into any
    element. *)
Theorem decoded_values_can_be_encoded (scope : gmap string string) (node node' : Node)
    (v : value) :
  decode_wsdl scope node = Ok v →
  encodable v = true
  ∧ (xml_node node = true → is_Ok (encode_wsdl node' v) = true).
Proof.
  intros H.
  pose proof (proj1 (decodes_encodable_all node) _ _ H) as Henc.
  split; [done|]. intros Hnode.
  pose proof (proj1 (decodes_xml_all node Hnode) _ _ H) as Hxml.
  pose proof (encodes_all v node') as He.
  destruct (encode_wsdl node' v) as [|e]; [done|].
  destruct He as [[_ He]|[_ He]]; congruence.
Qed.

Lemma decoded_values_can_be_encoded_witness :
  is_Ok (encode_wsdl (etree.new (plain "a")) (VInt 1)) = true.
Proof.
  apply (decoded_values_can_be_encoded ∅ (return_int "1")); vm_compute; reflexivity.
Defined.

(** X3: a value without booleans and foreign objects, whose strings are
    text that lxml accepts and whose mappings have hashable keys and no key
    twice, is encoded without error into a new element with a plain tag,
    and that element decodes to the same value. *)
Theorem plain_values_round_trip (v : value) (name : string) :
  etree.valid_name name = true →
  plain_value v = true →
  (do node <- encode_wsdl (etree.new (plain name)) v; decode_wsdl ∅ node) = Ok v.
Proof.
  intros _ Hv. destruct (round_trip_plain v Hv name) as (node & -> & _ & Hdec).
  apply Hdec.
Qed.

Lemma plain_values_round_trip_witness :
  (do node <- encode_wsdl (etree.new (plain "return")) (DNSZone.encode sample_zone);
   decode_wsdl ∅ node) = Ok (DNSZone.encode sample_zone).
Proof. apply plain_values_round_trip; vm_compute; reflexivity. Defined.

(** ** Records and zones *)

Lemma record_encoding_read_back (r : DNSRecordV.t) :
  DNSRecordV.create_from_encoding (DNSRecordV.encode r true) = Ok r.
Proof. by destruct r. Qed.

Lemma records_read_back (rs : list DNSRecordV.t) :
  for_each DNSRecordV.create_from_encoding
    ((fun record => DNSRecordV.encode record true) <$> rs) = Ok rs.
Proof.
  induction rs as [|r rs IH]; [done|].
  rewrite fmap_cons. cbn [for_each]. rewrite record_encoding_read_back, IH. done.
Qed.

(** X4: [DNSRecord.create_from_encoding] reads back the record that
    [DNSRecord.encode] wrote with [include_ids=True]; the encoding without
    ids cannot be read back: it raises [KeyError('id')]. *)
Theorem record_encode_round_trip (r : DNSRecordV.t) :
  DNSRecordV.create_from_encoding (DNSRecordV.encode r true) = Ok r
  ∧ DNSRecordV.create_from_encoding (DNSRecordV.encode r false) = Raise (KeyError "id").
Proof. split; by destruct r. Qed.

(** X5: [DNSZone.create_from_encoding] reads back the zone that
    [DNSZone.encode] wrote, with all its records. *)
Theorem zone_encode_round_trip (z : DNSZone.t) :
  DNSZone.create_from_encoding (DNSZone.encode z) = Ok z.
Proof.
  destruct z as [id user name email ttl nameserver serial slu refresh retry expire
                   template ns3 records].
  unfold DNSZone.create_from_encoding, DNSZone.encode. cbn -[for_each fmap].
  by rewrite records_read_back.
Qed.

Lemma record_encoding_plain (r : DNSRecord) (include_ids : bool) :
  xml_record r = true →
  plain_value (DNSRecordV.encode (DNSRecordV.of_record r) include_ids) = true.
Proof.
  destruct r as [i z t p tg ttl pr]. unfold xml_record. simpl.
  intros [[Ht Hp]%andb_true_iff Htg]%andb_true_iff.
  assert (∀ o, from_option etree.xml_text true o = true →
               plain_value (DNSRecordV.of_str o) = true) as Hs by (by intros [s|]).
  assert (∀ o, plain_value (DNSRecordV.of_int o) = true) as Hi by (by intros [n|]).
  destruct include_ids; cbn -[DNSRecordV.of_str DNSRecordV.of_int];
    rewrite ?Hs, ?Hi by done; reflexivity.
Qed.

(** X6: a record of the module whose strings are text that lxml accepts,
    encoded with its ids, written by [encode_wsdl] into a new element with
    a plain tag, decoded by [decode_wsdl] and read by
    [DNSRecord.create_from_encoding], is the same record. *)
Theorem record_wire_round_trip (r : DNSRecord) (name : string) :
  etree.valid_name name = true →
  xml_record r = true →
  ∃ node,
    encode_wsdl (etree.new (plain name)) (DNSRecordV.encode (DNSRecordV.of_record r) true)
    = Ok node
    ∧ (do source <- decode_wsdl ∅ node; DNSRecordV.create_from_encoding source)
      = Ok (DNSRecordV.of_record r).
Proof.
  intros _ Hr.
  destruct (round_trip_plain _ (record_encoding_plain r true Hr) name)
    as (node & Henc & _ & Hdec).
  exists node. split; [done|]. rewrite Hdec. simpl. apply record_encoding_read_back.
Qed.

Lemma record_wire_round_trip_witness :
  ∃ node,
    encode_wsdl (etree.new (plain "return"))
      (DNSRecordV.encode (DNSRecordV.of_record (sample 5 3600 "1.2.3.4")) true)
    = Ok node
    ∧ (do source <- decode_wsdl ∅ node; DNSRecordV.create_from_encoding source)
      = Ok (DNSRecordV.of_record (sample 5 3600 "1.2.3.4")).
Proof. apply record_wire_round_trip; vm_compute; reflexivity. Defined.

(** ** Answers of the service *)



Lemma is_True_spec v : is_True v = true ↔ v = VBool true.
Proof. split; [|by intros ->]. by destruct v as [| | |[]| | |]. Qed.

(** X7: [HostTechAPI._execute] returns a result exactly when the status
    is from 200 to 299, the document parses, its header says that
    [authenticateResponse] is [True], its body holds a result under the
    expected name, and that result has an acceptable type; the result
    returned is the one in the body. *)
Theorem execute_returns_authenticated_results (tostring : Node → string) (api : string)
    (code : Z) (payload : string) (root : Node) (result_name : string)
    (acceptable_types : value → bool) (res : value) :
  _execute tostring api code payload root result_name acceptable_types = Ok res
  ↔ answers tostring api code root result_name res ∧ acceptable_types res = true.
Proof.
  unfold _execute, execute, answers, get_header, get_result. split.
  - destruct ((code <? 200) || (300 <=? code)) eqn:Hcode.
    { unfold bind. destruct (Parser_init tostring api root); intros H; discriminate H. }
    apply orb_false_iff in Hcode as [H1%Z.ltb_ge H2%Z.leb_gt].
    destruct (Parser_init tostring api root) as [p|] eqn:Hp; [|done]. simpl.
    destruct (_header p !! "authenticateResponse") as [auth|] eqn:Hh; [|done]. simpl.
    destruct (is_True auth) eqn:Hauth; [|done]. apply is_True_spec in Hauth as ->. simpl.
    destruct (_body p !! result_name) as [v|] eqn:Hb; [|done]. simpl.
    destruct (acceptable_types v) eqn:Hacc; [|done]. intros [= <-].
    split; [|done]. split; [lia|]. by exists p.
  - intros [[Hcode (p & -> & Hh & Hb)] Hacc].
    assert ((code <? 200) || (300 <=? code) = false) as ->.
    { apply orb_false_iff. split; [apply Z.ltb_ge|apply Z.leb_gt]; lia. }
    simpl. rewrite Hh. simpl. rewrite Hb. simpl. by rewrite Hacc.
Qed.

Lemma parse_returns_keys name rets : ∀ res res',
  _parse_returns name rets res = Ok res' →
  ∀ k, is_Some (res' !! k) ↔ is_Some (res !! k) ∨ (k = name ∧ rets ≠ []).
Proof.
  induction rets as [|[scope ret] rets IH]; intros res res'; simpl.
  - intros [= <-] k. split; [auto|]. intros [H|[_ H]]; done.
  - destruct (decode_wsdl scope ret) as [v|]; [|done]. simpl. intros H k.
    rewrite (IH _ _ H k). destruct (decide (k = name)) as [->|Hk].
    + rewrite lookup_insert_eq. split; [right|left]; eauto.
    + rewrite lookup_insert_ne by done. split; intros [?|[? ?]]; auto; done.
Qed.

(** X8: when [Parser._parse] accepts a header or body, every child of it
    is in the namespace of the endpoint, and the names stored afterwards
    are those stored before and the local names of the children that hold
    a [return] element. *)
Theorem parse_stores_operations_of_the_api (api : string) (res res' : gmap string value)
    (section : gmap string string * Node) :
  _parse api res section = Ok res' →
  Forall (fun child => namespace (tag child) = Some api) (children section.2)
  ∧ ∀ name, is_Some (res' !! name)
            ↔ is_Some (res !! name)
              ∨ ∃ child, child ∈ children section.2 ∧ localname (tag child) = name
                         ∧ iter (etree.nsmap section.1 section.2) child (plain "return")
                           ≠ [].
Proof.
  unfold _parse. generalize (etree.nsmap section.1 section.2) as scope.
  generalize (children section.2) as cs. clear section. intros cs scope.
  revert res res'.
  induction cs as [|c cs IH]; intros res res'; simpl.
  - intros [= <-]. split; [done|]. intros k. split; [auto|].
    intros [H|(child & Hin & _)]; [done|]. by apply elem_of_nil in Hin.
  - case_bool_decide as Hns; [|done]. simpl.
    destruct (_parse_returns _ _ _) as [res1|] eqn:Hr; [|done]. simpl.
    intros H. apply IH in H as [Hall Hkeys]. split; [by constructor|].
    intros k. rewrite Hkeys, (parse_returns_keys _ _ _ _ Hr k). split.
    + intros [[H|[-> H]]|(child & Hin & Hk & Hit)]; [by left|right..].
      * exists c. split; [apply list_elem_of_here|done].
      * exists child. split; [by apply list_elem_of_further|done].
    + intros [H|(child & Hin & Hk & Hit)]; [by left; left|].
      apply elem_of_cons in Hin as [->|Hin]; [left; right; done|].
      right. by exists child.
Qed.

Lemma parse_stores_operations_of_the_api_witness :
  Forall (fun child => namespace (tag child) = Some api_ns) (children sample_section.2).
Proof.
  apply (parse_stores_operations_of_the_api api_ns ∅ {["a" := VInt 1]} sample_section).
  vm_compute. reflexivity.
Defined.


(** ** Requests and the zone *)

Lemma is_Ok_get {A} (r : result A) (d : A) :
  is_Ok r = true → r = Ok (match r with Ok x => x | Raise _ => d end).
Proof. by destruct r. Qed.

(** *** Names and namespaces that lxml takes as they are *)

Lemma name_char_xml a : etree.name_char a = true → etree.xml_char a = true.
Proof. by destruct a as [[] [] [] [] [] [] [] []]. Qed.

Lemma name_chars_xml s : etree.name_chars s = true → etree.xml_text s = true.
Proof.
  induction s as [|a s IH]; simpl; [done|].
  intros [Ha Hs]%andb_true_iff. by rewrite (name_char_xml a Ha), IH.
Qed.

Lemma name_start_is_name_char a :
  etree.name_start_char a = true → etree.name_char a = true.
Proof. unfold etree.name_char. by intros ->. Qed.

Lemma valid_name_xml s : etree.valid_name s = true → etree.xml_text s = true.
Proof.
  destruct s as [|a s]; simpl; [done|]. intros [Ha Hs]%andb_true_iff.
  by rewrite (name_char_xml a (name_start_is_name_char a Ha)), (name_chars_xml s Hs).
Qed.

Lemma getNsTag_literal s :
  etree.xml_text s = true → s ≠ "" → PyStr.startswith s "{" = false →
  etree._getNsTag s = Ok (None, s).
Proof.
  unfold etree._getNsTag. intros -> Hs Hb. destruct s as [|a s]; [done|].
  destruct a as [[] [] [] [] [] [] [] []]; try reflexivity.
  simpl in Hb. destruct s; discriminate Hb.
Qed.

Lemma getNsTag_name s :
  etree.valid_name s = true → etree._getNsTag s = Ok (None, s).
Proof.
  intros Hs. apply getNsTag_literal; [by apply valid_name_xml|by destruct s|].
  destruct s as [|a s]; [done|]. simpl in *. apply andb_true_iff in Hs as [Ha _].
  by destruct a as [[] [] [] [] [] [] [] []].
Qed.

Lemma xml_text_app s t :
  etree.xml_text (s +:+ t) = etree.xml_text s && etree.xml_text t.
Proof. induction s as [|a s IH]; simpl; [done|]. by rewrite IH, andb_assoc. Qed.

Lemma find_app_fresh (c : ascii) (s t : string) :
  Py.find c s = None → Py.find c (s +:+ String c t) = Some (String.length s).
Proof.
  induction s as [|a s IH]; simpl.
  - by rewrite Ascii.eqb_refl.
  - destruct (Ascii.eqb a c); [done|]. destruct (Py.find c s); [done|].
    intros _. by rewrite IH.
Qed.

Lemma getNsTag_qualified ns name :
  etree.xml_text ns = true → ns ≠ "" → Py.find "}" ns = None →
  etree.valid_name name = true →
  etree._getNsTag ("{" +:+ ns +:+ "}" +:+ name) = Ok (Some ns, name).
Proof.
  intros Hns Hne Hfind Hname. unfold etree._getNsTag.
  assert (etree.xml_text ("{" +:+ ns +:+ "}" +:+ name) = true) as ->.
  { change ("{" +:+ ns +:+ "}" +:+ name) with (String "{" (ns +:+ String "}" name)).
    simpl. rewrite xml_text_app, Hns. simpl. by apply valid_name_xml. }
  change ("{" +:+ ns +:+ "}" +:+ name) with (String "{" (ns +:+ String "}" name)).
  cbn [negb]. cbv iota beta.
  rewrite (find_app_fresh "}" ns name Hfind), slice_from_app, slice_to_app.
  destruct name as [|a name]; [done|]. by destruct ns.
Qed.

Section created.
Variable valid_uri : string → bool.

Lemma Element_name s :
  etree.valid_name s = true → etree.Element valid_uri s = Ok (etree.new (plain s)).
Proof.
  intros Hs. unfold etree.Element. rewrite (getNsTag_name s Hs). simpl. by rewrite Hs.
Qed.

Lemma create_plain tag :
  etree.valid_name tag = true →
  Composer_create valid_uri tag None = Ok (etree.new (plain tag))
  ∧ Composer_create valid_uri tag (Some "") = Ok (etree.new (plain tag)).
Proof. intros Ht. unfold Composer_create. simpl. by rewrite Element_name. Qed.

Lemma create_qualified tag ns :
  etree.valid_name tag = true → ns ≠ "" →
  literal_uri ns = true → valid_uri ns = true →
  Composer_create valid_uri tag (Some ns)
  = Ok (etree.declare ns (etree.new (qualified ns tag))).
Proof.
  intros Ht Hne [[Hx Hb%negb_true_iff]%andb_true_iff Hf%bool_decide_eq_true]%andb_true_iff
    Hv.
  unfold Composer_create. rewrite (proj2 (String.eqb_neq ns "") Hne).
  unfold etree.QName_text. rewrite (getNsTag_literal ns Hx Hne Hb). simpl.
  rewrite Ht. simpl. unfold etree.Element.
  rewrite (getNsTag_qualified ns tag Hx Hne Hf Ht). simpl. by rewrite Ht, Hv.
Qed.
End created.

Lemma bind_Ok {A B} (r : result A) (k : A → result B) (b : B) :
  bind r k = Ok b → ∃ a, r = Ok a ∧ k a = Ok b.
Proof. destruct r as [a|]; [|done]. by exists a. Qed.

Lemma add_auth_api valid_uri c username password c' :
  add_auth valid_uri c username password = Ok c' → c_api c' = c_api c.
Proof.
  unfold add_auth. intros H.
  repeat (apply bind_Ok in H as (? & _ & H)). by injection H as <-.
Qed.

Lemma add_simple_command_api valid_uri c command args c' :
  add_simple_command valid_uri c command args = Ok c' → c_api c' = c_api c.
Proof.
  unfold add_simple_command. destruct (negb _); [done|]. intros H.
  repeat (apply bind_Ok in H as (? & _ & H)). by injection H as <-.
Qed.

Lemma compose_api valid_uri api username password name args c :
  HostTechAPI.compose valid_uri api username password name args = Ok c → c_api c = api.
Proof.
  unfold HostTechAPI.compose, HostTechAPI._prepare, Composer_init. intros H.
  apply bind_Ok in H as (c1 & H1 & H%add_simple_command_api).
  apply bind_Ok in H1 as (c0 & H0 & H1%add_auth_api).
  repeat (apply bind_Ok in H0 as (? & _ & H0)). injection H0 as <-.
  by rewrite H, H1.
Qed.

(** X9: when the answer to the [getZone] request holds a fault,
    [get_zone] returns [None] if the fault is the server's
    "zone not found", and raises the fault otherwise, whatever the status
    code and the rest of the answer. *)
Theorem get_zone_on_fault (tostring : Node → string) (transport : Node → Z * string * Node)
    (valid_uri : string → bool)
    (api username password : string) (search : value)
    (req : Node) (code : Z) (payload : string) (root : Node)
    (fault : gmap string string * Node) (rest : list (gmap string string * Node)) :
  request valid_uri api username password "getZone" [("search", search)] = Ok req →
  transport req = (code, payload, root) →
  iter ∅ root fault_tag = fault :: rest →
  HostTechAPI.get_zone tostring transport valid_uri api username password search
  = if zone_not_found (raise_fault tostring fault) then Ok None
    else Raise (raise_fault tostring fault).
Proof.
  unfold request, HostTechAPI.get_zone. intros Hreq Htr Hiter.
  destruct (HostTechAPI.compose _ _ _ _ _ _) as [command|] eqn:Hc; [|done].
  simpl in Hreq. injection Hreq as <-. simpl.
  unfold HostTechAPI.API_execute. rewrite Htr.
  assert (Parser_init tostring (c_api command) root = Raise (raise_fault tostring fault))
    as Hinit.
  { unfold Parser_init. fold fault_tag. by rewrite Hiter. }
  unfold _execute, execute. rewrite Hinit.
  destruct (raise_fault_is_error tostring fault) as (origin & message & ->).
  by destruct (_ || _).
Qed.

Lemma get_zone_on_fault_witness :
  HostTechAPI.get_zone no_dump (fun _ => (500, "", not_found_answer)) known_uri api_ns
    "user" "secret" (VStr "example.com") = Ok None.
Proof.
  erewrite (get_zone_on_fault no_dump (fun _ => (500, "", not_found_answer)) known_uri
              api_ns "user" "secret" (VStr "example.com"));
    [|apply (is_Ok_get _ (etree.new (plain ""))); vm_compute; reflexivity
     |reflexivity|vm_compute; reflexivity].
  vm_compute. reflexivity.
Defined.

Lemma add_arguments_spec valid_uri args :
  Forall (fun arg => etree.valid_name arg.1 = true ∧ plain_value arg.2 = true) args →
  ∀ command, ∃ kids,
    add_arguments valid_uri command args = Ok (with_children command kids)
    ∧ Forall2 argument_for args kids.
Proof.
  induction 1 as [|[arg value] args [Hn Hv] _ IH]; intros command;
    cbn [add_arguments fst snd] in *.
  - exists []. by split.
  - rewrite (proj1 (create_plain valid_uri arg Hn)). simpl.
    destruct (round_trip_plain value Hv arg) as (kid & Hkid & Htag & Hdec).
    rewrite Hkid. simpl.
    destruct (IH (etree.append command kid)) as (kids & -> & Hkids).
    exists (kid :: kids). split; [done|]. by constructor.
Qed.

(** X10: [add_simple_command] does not fail when the keyword arguments have
    names that Python lets through (no name twice, none of [self] and
    [command]), the command and the arguments have names that lxml accepts
    as tags, the values are plain values, and the endpoint is empty or a
    namespace that lxml accepts and reads as it is written.  It then
    appends one element to the body, named as the command and in the
    namespace of the endpoint (in none when that is empty), whose children
    are the arguments in order: each has the argument's name and decodes to
    the argument's value. *)
Theorem command_arguments_decode (valid_uri : string → bool) (c : Composer)
    (command : string) (args : list (string * value)) :
  keywords_ok args.*1 = true →
  etree.valid_name command = true →
  Forall (fun arg => etree.valid_name arg.1 = true ∧ plain_value arg.2 = true) args →
  c_api c = "" ∨ (literal_uri (c_api c) = true ∧ valid_uri (c_api c) = true) →
  ∃ element,
    add_simple_command valid_uri c command args
    = Ok {| c_api := c_api c; c_envelope := c_envelope c; c_header := c_header c;
            c_body := etree.append (c_body c) element |}
    ∧ localname (tag element) = command
    ∧ namespace (tag element) = (if String.eqb (c_api c) "" then None else Some (c_api c))
    ∧ Forall2 argument_for args (children element).
Proof.
  intros Hkw Hcommand Hargs Hapi. unfold add_simple_command. rewrite Hkw. cbn [negb].
  assert (∃ element,
            Composer_create valid_uri command (Some (c_api c)) = Ok element
            ∧ children element = []
            ∧ localname (tag element) = command
            ∧ namespace (tag element)
              = (if String.eqb (c_api c) "" then None else Some (c_api c)))
    as (element & -> & Hch & Hl & Hn).
  { destruct Hapi as [->|[Hlit Hv]].
    - rewrite (proj2 (create_plain valid_uri command Hcommand)). by eexists.
    - destruct (String.eqb_spec (c_api c) "") as [Heq|Hne].
      + rewrite Heq, (proj2 (create_plain valid_uri command Hcommand)). by eexists.
      + rewrite (create_qualified valid_uri command _ Hcommand Hne Hlit Hv).
        by eexists. }
  cbn [bind]. destruct (add_arguments_spec valid_uri args Hargs element) as (kids & -> & Hkids).
  eexists. split; [reflexivity|].
  destruct (with_children_fields element kids) as (-> & _ & _ & ->).
  by rewrite Hch.
Qed.

Lemma command_arguments_decode_witness :
  ∃ element,
    add_simple_command known_uri
      {| c_api := api_ns; c_envelope := etree.new (qualified _main_ns "Envelope");
         c_header := etree.new (qualified _main_ns "Header");
         c_body := etree.new (qualified _main_ns "Body") |}
      "getZone" [("search", VStr "example.com")]
    = Ok {| c_api := api_ns; c_envelope := etree.new (qualified _main_ns "Envelope");
            c_header := etree.new (qualified _main_ns "Header");
            c_body := etree.append (etree.new (qualified _main_ns "Body")) element |}
    ∧ localname (tag element) = "getZone"
    ∧ namespace (tag element) = Some api_ns
    ∧ Forall2 argument_for [("search", VStr "example.com")] (children element).
Proof.
  apply (command_arguments_decode known_uri
           {| c_api := api_ns; c_envelope := etree.new (qualified _main_ns "Envelope");
              c_header := etree.new (qualified _main_ns "Header");
              c_body := etree.new (qualified _main_ns "Body") |}
           "getZone" [("search", VStr "example.com")]).
  - vm_compute. reflexivity.
  - reflexivity.
  - repeat constructor.
  - right. split; vm_compute; reflexivity.
Defined.

Lemma tags_in_append ok node child :
  forallb (tags_in ok) (children node) = true → tags_in ok child = true →
  forallb (tags_in ok) (children (etree.append node child)) = true.
Proof. intros Hn Hc. simpl. rewrite forallb_app, Hn. simpl. by rewrite Hc. Qed.

Lemma tags_in_unfold ok node :
  tags_in ok node = ok (tag node) && forallb (tags_in ok) (children node).
Proof. by destruct node. Qed.

Lemma encode_elts_tags elts :
  Forall keeps_tags elts → ∀ node node',
  encode_elts encode_wsdl node elts = Ok node' →
  tag node' = tag node
  ∧ (forallb (tags_in codec_tag) (children node) = true →
     forallb (tags_in codec_tag) (children node') = true).
Proof.
  induction 1 as [|x elts Hx _ IH]; intros node node'; simpl.
  - by intros [= <-].
  - destruct (encode_wsdl (etree.new (plain "item")) x) as [child|] eqn:Hc; [|done].
    simpl. intros H. apply IH in H as [Htag Hkids]. split; [done|].
    intros Hn. apply Hkids, tags_in_append; [done|].
    apply Hx in Hc as [Hct Hck]. rewrite tags_in_unfold, Hct, Hck; done.
Qed.

Lemma encode_items_tags items :
  Forall (fun kv => keeps_tags kv.1 ∧ keeps_tags kv.2) items → ∀ node node',
  encode_items encode_wsdl node items = Ok node' →
  tag node' = tag node
  ∧ (forallb (tags_in codec_tag) (children node) = true →
     forallb (tags_in codec_tag) (children node') = true).
Proof.
  induction 1 as [|[k x] items [Hk Hx] _ IH]; intros node node'; simpl in *.
  - by intros [= <-].
  - destruct (encode_wsdl (etree.new (plain "key")) k) as [ke|] eqn:Hke; [|done].
    simpl. destruct (encode_wsdl (etree.new (plain "value")) x) as [ve|] eqn:Hve; [|done].
    simpl. intros H. apply IH in H as [Htag Hkids]. split; [done|].
    intros Hn. apply Hkids, tags_in_append; [done|].
    apply Hk in Hke as [Hkt Hkk]. apply Hx in Hve as [Hvt Hvk].
    rewrite tags_in_unfold. simpl.
    rewrite (tags_in_unfold _ ke), (tags_in_unfold _ ve), Hkt, Hvt, Hkk, Hvk; done.
Qed.

Lemma keeps_tags_all (v : value) : keeps_tags v.
Proof.
  assert (∀ node s node', etree.set_text node s = Ok node' →
            tag node' = tag node ∧ children node' = children node) as Htext.
  { intros node s node'. unfold etree.set_text.
    destruct (etree.xml_text s); [|done]. by intros [= <-]. }
  induction v as [|s|z|b| |items IH|elts IH] using value_nested_ind; intros node node';
    rewrite encode_wsdl_unfold; simpl; try (by intros [= <-]); try done.
  - intros [-> ->]%Htext. done.
  - intros [-> ->]%Htext. done.
  - intros [-> ->]%Htext. done.
  - intros H. by apply (encode_items_tags items IH) in H.
  - intros H. by apply (encode_elts_tags elts IH) in H.
Qed.

Lemma filter_flat_map {A B} (P : B → Prop) `{∀ x, Decision (P x)} (f : A → list B)
    (l : list A) :
  filter P (flat_map f l) = flat_map (fun x => filter P (f x)) l.
Proof. induction l as [|x l IH]; simpl; [done|]. by rewrite filter_app, IH. Qed.

Lemma iter_unfold scope node name :
  iter scope node name =
  (if decide (tag node = name) then [(scope, node)] else [])
  ++ flat_map (fun kid => iter (etree.nsmap scope node) kid name) (children node).
Proof.
  unfold iter. destruct node as [t d a txt kids]. cbn [iter_all].
  rewrite filter_cons, filter_flat_map. simpl. by destruct (decide (t = name)).
Qed.

Lemma iter_codec_tags name node : ∀ scope,
  tags_in codec_tag node = true → codec_tag name = false → iter scope node name = [].
Proof.
  induction node as [t d a txt kids IH] using Node_nested_ind. intros scope Ht Hname.
  rewrite iter_unfold. simpl in *. apply andb_true_iff in Ht as [Ht Hkids].
  destruct (decide (t = name)) as [->|_]; [congruence|]. simpl.
  generalize (etree.nsmap scope (Element t d a txt kids)). intros scope'.
  induction kids as [|kid kids IHk]; simpl in *; [done|].
  apply andb_true_iff in Hkids as [Hkid Hkids]. apply Forall_cons in IH as [IHkid IH].
  by rewrite IHkid, IHk.
Qed.

Lemma iter_encoded name scope node :
  forallb (tags_in codec_tag) (children node) = true → codec_tag name = false →
  iter scope node name = if decide (tag node = name) then [(scope, node)] else [].
Proof.
  intros Hkids Hname. rewrite iter_unfold.
  assert (flat_map (fun kid => iter (etree.nsmap scope node) kid name) (children node) = [])
    as ->; [|by rewrite app_nil_r].
  induction (children node) as [|kid kids IH]; simpl in *; [done|].
  apply andb_true_iff in Hkids as [Hkid Hkids].
  by rewrite iter_codec_tags, IH.
Qed.

Lemma return_true_decodes scope : decode_wsdl scope return_true = Ok (VBool true).
Proof.
  rewrite (decode_typed _ _ _NAMESPACE_XSD "boolean"); [done|].
  intros scope'. split; [by vm_compute|]. eexists. split.
  - unfold return_true, _set_type, etree.set_qname, etree.set, etree.get. simpl.
    apply lookup_insert_eq.
  - unfold _split_text_namespace, etree.nsmap. simpl. f_equal.
    apply lookup_union_Some_l. by vm_compute.
Qed.

Lemma iter_new_with scope t kids name :
  iter scope (with_children (etree.new t) kids) name =
  (if decide (t = name) then [(scope, with_children (etree.new t) kids)] else [])
  ++ flat_map (fun kid => iter (∅ ∪ scope) kid name) kids.
Proof.
  rewrite iter_unfold. unfold etree.nsmap.
  destruct (with_children_fields (etree.new t) kids) as (-> & _ & -> & ->). done.
Qed.

Section answer_sections.
Variables (api nm : string) (ret : Node).
Hypothesis Hapi : api ≠ _main_ns.
Hypothesis Htag : tag ret = plain "return".
Hypothesis Hkids : forallb (tags_in codec_tag) (children ret) = true.

Lemma iter_operation_returns scope :
  iter scope (operation api nm ret) (plain "return") = [(∅ ∪ scope, ret)].
Proof.
  unfold operation. rewrite iter_new_with. rewrite decide_False by done. simpl.
  rewrite iter_encoded by done. rewrite Htag. by rewrite decide_True.
Qed.

Lemma iter_operation_parts scope sec :
  iter scope (operation api nm ret) (qualified _main_ns sec) = [].
Proof.
  unfold operation. rewrite iter_new_with.
  rewrite decide_False by (intros [= ? _]; done). simpl.
  rewrite iter_encoded by done. rewrite Htag. by rewrite decide_False.
Qed.

Lemma iter_part scope sec sec' :
  iter scope (part sec api nm ret) (qualified _main_ns sec') =
  if decide (sec = sec') then [(scope, part sec api nm ret)] else [].
Proof.
  unfold part. rewrite iter_new_with. cbn [flat_map].
  rewrite iter_operation_parts. simpl.
  destruct (decide (sec = sec')) as [->|Hne].
  - by rewrite decide_True.
  - rewrite decide_False by (intros [= ?]; done). done.
Qed.

Lemma parse_part scope sec res v :
  (∀ scope, decode_wsdl scope ret = Ok v) →
  _parse api res (scope, part sec api nm ret) = Ok (<[nm := v]> res).
Proof.
  intros Hdec. unfold _parse, part.
  destruct (with_children_fields (etree.new (qualified _main_ns sec)) [operation api nm ret])
    as (_ & _ & _ & Hch).
  cbn [fst snd]. rewrite Hch. cbn [app etree.new children _parse_children].
  destruct (with_children_fields (etree.new (qualified api nm)) [ret]) as (Ht & _ & _ & _).
  fold (operation api nm ret) in Ht. rewrite Ht. cbn [tag etree.new namespace localname qualified].
  rewrite bool_decide_eq_true_2 by done. cbn [negb].
  rewrite iter_operation_returns. cbn [_parse_returns]. rewrite Hdec. done.
Qed.
End answer_sections.

Lemma answer_parts api name ret :
  answer api name ret =
  with_children (etree.new (qualified _main_ns "Envelope"))
    [part "Header" api "authenticateResponse" return_true; part "Body" api name ret].
Proof. reflexivity. Qed.

Lemma iter_answer api name ret sec :
  api ≠ _main_ns → tag ret = plain "return" →
  forallb (tags_in codec_tag) (children ret) = true →
  sec ≠ "Envelope" →
  iter ∅ (answer api name ret) (qualified _main_ns sec) =
  (if decide ("Header" = sec)
   then [(∅ ∪ ∅, part "Header" api "authenticateResponse" return_true)] else [])
  ++ (if decide ("Body" = sec) then [(∅ ∪ ∅, part "Body" api name ret)] else []).
Proof.
  intros Hapi Htag Hkids Hsec. rewrite answer_parts, iter_new_with.
  rewrite decide_False by (intros [= ?]; done).
  cbn [flat_map app]. rewrite !iter_part by done. by rewrite app_nil_r.
Qed.

Lemma parser_reads_answer tostring api name ret v :
  api ≠ _main_ns →
  tag ret = plain "return" →
  forallb (tags_in codec_tag) (children ret) = true →
  (∀ scope, decode_wsdl scope ret = Ok v) →
  ∃ p, Parser_init tostring api (answer api name ret) = Ok p
       ∧ _header p = {["authenticateResponse" := VBool true]}
       ∧ _body p = {[name := v]}.
Proof.
  intros Hapi Htag Hkids Hdec. unfold Parser_init.
  rewrite !iter_answer by done. simpl.
  rewrite (parse_part api "authenticateResponse" return_true eq_refl eq_refl
             _ "Header" ∅ (VBool true) return_true_decodes).
  simpl. rewrite (parse_part api name ret Htag Hkids _ "Body" ∅ v Hdec). simpl.
  eexists. split; [reflexivity|]. done.
Qed.



(** ** Names and prefixes *)

Lemma length_app_string (s t : string) :
  String.length (s +:+ t) = (String.length s + String.length t)%nat.
Proof. induction s as [|a s IH]; simpl; [done|]. by rewrite IH. Qed.

Lemma endswith_spec (s t : string) :
  PyStr.endswith s t = true ↔ ∃ pre, s = pre +:+ t.
Proof.
  split.
  - induction s as [|a s IH]; cbn [PyStr.endswith].
    + destruct (String.length "" =? String.length t)%nat; [|done].
      intros Heq%String.eqb_eq. by exists "".
    + destruct (String.length (String a s) =? String.length t)%nat.
      * intros Heq%String.eqb_eq. by exists "".
      * intros (pre & ->)%IH. by exists (String a pre).
  - intros (pre & ->). induction pre as [|a pre IH].
    + change ("" +:+ t) with t. destruct t as [|b t]; cbn [PyStr.endswith].
      * done.
      * rewrite Nat.eqb_refl. apply String.eqb_refl.
    + change (String a pre +:+ t) with (String a (pre +:+ t)). cbn [PyStr.endswith].
      destruct (Nat.eqb_spec (String.length (String a (pre +:+ t))) (String.length t))
        as [Hl|Hl].
      * simpl in Hl. rewrite length_app_string in Hl. lia.
      * exact IH.
Qed.

(** X12: the conversion of the record name to a prefix: without error the
    normalised record name is the normalised zone (no prefix) or the prefix,
    a dot and the normalised zone; it fails, with "Record must be in zone",
    only for names that have neither form. *)
Theorem prefix_rebuilds_record (zone record : string) :
  match prefix_of zone record with
  | Ok None => normalize record = normalize zone
  | Ok (Some prefix) =>
      normalize record = prefix +:+ "." +:+ normalize zone
      ∧ normalize record ≠ normalize zone
  | Raise e =>
      e = FailJson "Record must be in zone"
      ∧ normalize record ≠ normalize zone
      ∧ ∀ prefix, normalize record ≠ prefix +:+ "." +:+ normalize zone
  end.
Proof.
  unfold prefix_of.
  destruct (String.eqb_spec (normalize record) (normalize zone)) as [Heq|Hne].
  - by rewrite andb_false_r.
  - rewrite andb_true_r.
    destruct (PyStr.endswith _ _) eqn:He; simpl.
    + apply endswith_spec in He as (pre & He). split; [|done].
      generalize dependent (normalize record). intros name Hne ->.
      assert (PyStr.slice_to
                (Z.of_nat (String.length (pre +:+ "." +:+ normalize zone))
                 - Z.of_nat (String.length (normalize zone)) - 1)
                (pre +:+ "." +:+ normalize zone) = pre) as ->; [|done].
      unfold PyStr.slice_to.
      rewrite (length_app_string pre), (length_app_string "."). cbn [String.length].
      match goal with |- context [?n <? 0] => destruct (Z.ltb_spec n 0) as [Hn|Hn] end;
        [lia|].
      match goal with |- context [Z.to_nat ?n] =>
        replace (Z.to_nat n) with (String.length pre) by lia end.
      apply slice_to_app.
    + split; [done|]. split; [done|]. intros pre Hpre.
      assert (PyStr.endswith (normalize record) ("." +:+ normalize zone) = true) as Ht
        by (apply endswith_spec; by exists pre).
      congruence.
Qed.

(** ** Formatting a ttl *)

Lemma str_of_int_not_empty (z : Z) : Py.str_of_int z ≠ "".
Proof.
  intros H. pose proof (int_of_str_of_int z) as Hz. by rewrite H in Hz.
Qed.

Lemma join_empty (l : list string) :
  Forall (fun s => s ≠ "") l → PyStr.join " " l = "" → l = [].
Proof.
  intros Hl. destruct l as [|x [|y l]]; simpl; [done|..].
  - apply Forall_cons in Hl as [Hx _]. done.
  - apply Forall_cons in Hl as [Hx _]. by destruct x.
Qed.

(** X13: [format_ttl] gives the empty string for the ttl 0 and for no
    other ttl. *)
Theorem format_ttl_empty_iff_zero (ttl : Z) : format_ttl ttl = "" ↔ ttl = 0.
Proof.
  split; [|by intros ->].
  unfold format_ttl. intros H. apply join_empty in H.
  - destruct (Z.eqb_spec (ttl / 60 / 60) 0) as [Hh|Hh];
      destruct (Z.eqb_spec (ttl / 60 mod 60) 0) as [Hm|Hm];
      destruct (Z.eqb_spec (ttl mod 60) 0) as [Hs|Hs]; try done.
    rewrite (Z.div_mod ttl 60), (Z.div_mod (ttl / 60) 60) by lia. lia.
  - assert (∀ z c, Py.str_of_int z +:+ c ≠ "") as Hne.
    { intros z c Hz. apply (str_of_int_not_empty z). by destruct (Py.str_of_int z). }
    repeat case_match; repeat (apply Forall_app; split); repeat constructor; apply Hne.
Qed.

(** ** The fetch *)

Lemma min_star_ok (records : list DNSRecord) :
  records ≠ [] →
  ∃ ttl, min_star (Tuple1 (list_to_set (DNSRecord.ttl <$> records) : gset Z)) = Ok ttl.
Proof.
  intros Hr. unfold min_star, min_set.
  destruct (elements _) as [|x l] eqn:He; [|eauto].
  apply elements_empty_inv in He. destruct records as [|r rs]; [done|].
  exfalso. apply (not_elem_of_empty (C:=gset Z) (DNSRecord.ttl r)).
  rewrite <- He. apply elem_of_list_to_set. simpl. apply list_elem_of_here.
Qed.

(** X14: in state [get] the module plans no call and never fails: without
    a matching record it returns an empty set, otherwise the record name
    and type asked for, the targets of the matching records in the order
    of the zone, and the smallest of their ttls. *)
Theorem get_always_answers (p : params) (prefix : option string)
    (zone_records : list DNSRecord) :
  state_in p = get →
  calls p (run_module p prefix zone_records) = []
  ∧ match filter (selected prefix (type_in p)) zone_records with
    | [] => run_module p prefix zone_records = Ok (ExitFetched None)
    | records =>
        ∃ data,
          run_module p prefix zone_records = Ok (ExitFetched (Some data))
          ∧ f_record data = record_in p ∧ f_type data = type_in p
          ∧ f_value data = DNSRecord.target <$> records
          ∧ f_ttl data ∈ DNSRecord.ttl <$> records
          ∧ ∀ r, r ∈ records → f_ttl data ≤ DNSRecord.ttl r
    end.
Proof.
  intros Hs. unfold run_module. rewrite Hs. simpl.
  set (records := filter _ zone_records).
  split.
  { unfold calls, planned. destruct (check_mode p); [done|].
    by destruct (process_get p records). }
  destruct records as [|r rs] eqn:Hrec; [done|].
  destruct (min_star_ok (r :: rs)) as (ttl & Hmin); [done|].
  pose proof (fetched_ttl_is_minimum p (r :: rs)) as Hspec.
  unfold process_get in *. rewrite Hmin in *. simpl in *.
  eexists. split; [reflexivity|]. simpl.
  destruct (Hspec _ eq_refl) as [Hin Hle]. simpl in Hin, Hle. done.
Qed.


Lemma get_always_answers_witness :
  calls (wanted get 3600 [] false)
    (run_module (wanted get 3600 [] false) None
       [sample 1 600 "1.1.1.1"; sample 2 300 "2.2.2.2"]) = []
  ∧ ∃ data,
      run_module (wanted get 3600 [] false) None
        [sample 1 600 "1.1.1.1"; sample 2 300 "2.2.2.2"] = Ok (ExitFetched (Some data))
      ∧ f_record data = "example.com" ∧ f_type data = "A"
      ∧ f_value data = [Some "1.1.1.1"; Some "2.2.2.2"]
      ∧ f_ttl data ∈ [600; 300]
      ∧ ∀ r, r ∈ [sample 1 600 "1.1.1.1"; sample 2 300 "2.2.2.2"] → f_ttl data ≤ DNSRecord.ttl r.
Proof.
  apply (get_always_answers (wanted get 3600 [] false) None
           [sample 1 600 "1.1.1.1"; sample 2 300 "2.2.2.2"]).
  reflexivity.
Defined.

(** ** More on the decision *)

Lemma placed_changes (prefix : option string) (type_in : string) (ttl : Z)
    (U : list DNSRecord) (L : list pair_value) :
  ¬ (U = [] ∧ L = []) →
  ¬ (take (length U - length L) U = []
     ∧ zip_with (rewrite_to prefix type_in ttl) (reverse U) L = []
     ∧ rewrite_to prefix type_in ttl DNSRecord.new <$> drop (length U) L = []).
Proof.
  intros Hne (HD & HC & HN). apply Hne.
  destruct U as [|u U'], L as [|l L']; simpl in *; try done.
  destruct (reverse (u :: U')) eqn:Hrev; [|done].
  by apply (f_equal length) in Hrev; rewrite length_reverse in Hrev.
Qed.

(** X15: in state [present] the module reports no change exactly when the
    matching records all have the wanted ttl and their values are the
    wanted values up to order. *)
Theorem present_unchanged_iff_exact_match (p : params) (prefix : option string)
    (records : list DNSRecord) (values : list pair_value) :
  state_in p = present →
  (reconcile p prefix records values = Ok ExitUnchanged
   ↔ exact_match (ttl_in p) records values).
Proof.
  intros Hs. split; [|by apply reconcile_converged].
  intros Hrec. apply mismatch_of_false.
  destruct (mismatch_of (ttl_in p) records values) eqn:Hm; [exfalso|done].
  destruct (decide (overwrite_in p = true ∨ records = [])) as [Hcase|Hcase].
  - rewrite reconcile_present in Hrec by tauto.
    apply finish_nil in Hrec. revert Hrec. apply placed_changes.
    rewrite mismatch_of_eq in Hm.
    by apply negb_true_iff, bool_decide_eq_false in Hm.
  - rewrite reconcile_conflict in Hrec; [done|done| | |done].
    + destruct (overwrite_in p); tauto.
    + tauto.
Qed.

Lemma present_unchanged_iff_exact_match_witness :
  reconcile (wanted present 3600 ["1.1.1.1"; "2.2.2.2"] false) None
    [sample 1 3600 "2.2.2.2"; sample 2 3600 "1.1.1.1"]
    [(None, Some "1.1.1.1"); (None, Some "2.2.2.2")] = Ok ExitUnchanged.
Proof.
  apply (present_unchanged_iff_exact_match
           (wanted present 3600 ["1.1.1.1"; "2.2.2.2"] false)); [reflexivity|].
  apply mismatch_of_false. vm_compute. reflexivity.
Defined.

(** X16: in state [present], when no record matches, every wanted value is
    created, in the order given, with or without [overwrite]. *)
Theorem present_without_records_creates_all (p : params) (prefix : option string)
    (values : list pair_value) :
  state_in p = present →
  planned (reconcile p prefix [] values)
  = add_record <$> ((fun v => assign DNSRecord.new prefix (type_in p) (ttl_in p) v)
                      <$> values).
Proof.
  intros Hs. rewrite reconcile_present by auto. rewrite planned_finish. simpl.
  by rewrite drop_0.
Qed.

Lemma present_without_records_creates_all_witness :
  planned (reconcile (wanted present 3600 [] false) None []
             [(None, Some "1.1.1.1"); (None, Some "2.2.2.2"); (None, Some "3.3.3.3")])
  = add_record <$> ((fun v => assign DNSRecord.new None "A" 3600 v)
                      <$> [(None, Some "1.1.1.1"); (None, Some "2.2.2.2");
                           (None, Some "3.3.3.3")]).
Proof.
  apply (present_without_records_creates_all (wanted present 3600 [] false) None).
  reflexivity.
Defined.

(** The planned lists of a run that reaches its end. *)
Lemma reconcile_cases (p : params) (prefix : option string)
    (records : list DNSRecord) (values : list pair_value) :
  let U := unmatched (ttl_in p) records values in
  let L := leftover (ttl_in p) records values in
  reconcile p prefix records values = Raise (FailJson conflict_msg)
  ∨ reconcile p prefix records values = Ok ExitUnchanged
  ∨ (state_in p = absent ∧ reconcile p prefix records values = finish records [] [])
  ∨ (state_in p = present
     ∧ reconcile p prefix records values =
       finish (take (length U - length L) U)
         (zip_with (rewrite_to prefix (type_in p) (ttl_in p)) (reverse U) L)
         (rewrite_to prefix (type_in p) (ttl_in p) DNSRecord.new <$> drop (length U) L)).
Proof.
  intros U L. destruct (state_in p) eqn:Hs.
  - destruct (decide (overwrite_in p = true ∨ records = []
                      ∨ mismatch_of (ttl_in p) records values = false)) as [Hcase|Hcase].
    + do 3 right. split; [done|]. by apply reconcile_present.
    + left. apply reconcile_conflict; [done|..].
      * destruct (overwrite_in p); tauto.
      * tauto.
      * destruct (mismatch_of _ _ _); tauto.
  - rewrite reconcile_absent by done.
    destruct (mismatch_of _ _ _); [right; by left|]. right. right. by left.
  - right. left. by apply reconcile_get.
Qed.

Lemma finish_changed_inv D C N D' C' N' :
  finish D C N = Ok (ExitChanged D' C' N') → D' = D ∧ C' = C ∧ N' = N.
Proof.
  destruct D, C, N; simpl; intros H; try discriminate H; by injection H as <- <- <-.
Qed.

(** X17: a run that changes something never both deletes and creates; in
    state [absent] it only deletes; and the number of calls is the number
    of matching records in state [absent], and otherwise the larger of the
    numbers of records to replace and of values to place. *)
Theorem never_deletes_and_creates (p : params) (prefix : option string)
    (records : list DNSRecord) (values : list pair_value)
    (to_delete to_change to_create : list DNSRecord) :
  reconcile p prefix records values = Ok (ExitChanged to_delete to_change to_create) →
  (to_delete = [] ∨ to_create = [])
  ∧ (state_in p = absent → to_change = [] ∧ to_create = [])
  ∧ length (planned (reconcile p prefix records values))
    = (if bool_decide (state_in p = absent) then length records
       else length (unmatched (ttl_in p) records values)
              `max` length (leftover (ttl_in p) records values))%nat.
Proof.
  intros Hrec. rewrite Hrec.
  destruct (reconcile_cases p prefix records values) as [H|[H|[[Hs H]|[Hs H]]]];
    try (rewrite H in Hrec; discriminate Hrec).
  - rewrite Hrec in H. symmetry in H.
    apply finish_changed_inv in H as (-> & -> & ->).
    rewrite bool_decide_eq_true_2 by done. simpl.
    rewrite app_nil_r, length_fmap. auto.
  - set (U := unmatched (ttl_in p) records values) in *.
    set (L := leftover (ttl_in p) records values) in *.
    rewrite Hrec in H. symmetry in H.
    apply finish_changed_inv in H as (HD & HC & HN).
    split; [|split].
    + destruct (decide (length U ≤ length L)%nat) as [Hle|Hgt].
      * left. rewrite HD. replace (length U - length L)%nat with 0%nat by lia. done.
      * right. rewrite HN, drop_ge by lia. done.
    + intros Ha. congruence.
    + rewrite bool_decide_eq_false_2 by congruence.
      simpl. rewrite !length_app, !length_fmap, HD, HC, HN.
      rewrite length_take, length_zip_with, length_reverse, length_fmap, length_drop.
      lia.
Qed.


Lemma never_deletes_and_creates_witness :
  ([sample 1 300 "1.1.1.1"] = [] ∨ ([] : list DNSRecord) = [])
  ∧ (state_in (wanted present 3600 ["9.9.9.9"] true) = absent →
     [rewrite_to None "A" 3600 (sample 2 300 "2.2.2.2") (None, Some "9.9.9.9")] = []
     ∧ ([] : list DNSRecord) = [])
  ∧ length (planned (reconcile (wanted present 3600 ["9.9.9.9"] true) None
                       [sample 1 300 "1.1.1.1"; sample 2 300 "2.2.2.2"]
                       [(None, Some "9.9.9.9")]))
    = 2%nat.
Proof.
  apply (never_deletes_and_creates (wanted present 3600 ["9.9.9.9"] true) None
           [sample 1 300 "1.1.1.1"; sample 2 300 "2.2.2.2"] [(None, Some "9.9.9.9")]).
  vm_compute. reflexivity.
Defined.

Lemma parse_values_elem type_in value_in : ∀ acc values,
  parse_values type_in value_in acc = Ok values →
  ∀ v, v ∈ values →
    v ∈ acc ∨ ∃ value, value ∈ value_in ∧ parse_value type_in value = Ok v.
Proof.
  induction value_in as [|value rest IH]; intros acc values; simpl.
  - intros [= <-] v Hv. by left.
  - destruct (parse_value type_in value) as [w|] eqn:Hw; [|done]. simpl.
    intros H v Hv. destruct (IH _ _ H v Hv) as [Hin|(value' & Hin & Hp)].
    + apply elem_of_app in Hin as [Hin|Hin%list_elem_of_singleton]; [by left|].
      subst. right. exists value. split; [apply list_elem_of_here|done].
    + right. exists value'. split; [by apply list_elem_of_further|done].
Qed.

(** X18: every call that [run_module] plans stays within the record set of
    the prefix and type asked for: a deleted record is one of the zone with
    that prefix and type, an updated record keeps the [id] and [zone] of
    such a record and has the wanted ttl, prefix and type and the priority
    and target of one of the wanted values, and a created record has these
    wanted fields and no [id]. *)
Theorem calls_stay_within_record_set (p : params) (prefix : option string)
    (zone_records : list DNSRecord) :
  Forall (within_record_set p prefix zone_records)
    (planned (run_module p prefix zone_records)).
Proof.
  unfold run_module. case_bool_decide as Hget.
  { destruct (process_get _ _); constructor. }
  destruct (parse_values _ _ _) as [values|] eqn:Hparse; [|constructor]. simpl.
  set (records := filter (selected prefix (type_in p)) zone_records).
  assert (∀ r, r ∈ records → r ∈ zone_records ∧ selected prefix (type_in p) r) as Hsel.
  { intros r Hr. apply list_elem_of_filter in Hr. tauto. }
  destruct (reconcile_cases p prefix records values) as [H|[H|[[Hs H]|[Hs H]]]];
    rewrite H; try constructor.
  - rewrite planned_finish. simpl. rewrite app_nil_r.
    apply Forall_fmap, Forall_forall. intros r Hr. by apply Hsel.
  - rewrite planned_finish.
    set (U := unmatched (ttl_in p) records values).
    set (L := leftover (ttl_in p) records values).
    assert (∀ r, r ∈ U → r ∈ records) as HU
      by (intros r; apply sublist_subseteq, unmatched_sublist).
    assert (∀ r v, v ∈ L →
              carries_value p prefix (rewrite_to prefix (type_in p) (ttl_in p) r v))
      as HL.
    { intros r v Hv. split; [done|].
      assert (v ∈ values) as Hin.
      { rewrite (matched_leftover (ttl_in p) records values).
        apply elem_of_app. by right. }
      destruct (parse_values_elem _ _ _ _ Hparse v Hin) as [Hnil|Hvalue].
      - by apply elem_of_nil in Hnil.
      - by destruct v. }
    repeat (apply Forall_app; split); apply Forall_fmap, Forall_forall.
    + intros r Hr. apply Hsel, HU.
      by apply elem_of_take in Hr as (i & ?%list_elem_of_lookup_2 & _).
    + intros r Hr. apply elem_of_zip_with in Hr as (u & v & -> & Hu & Hv).
      rewrite reverse_Permutation in Hu. simpl. split; [by apply HL|].
      exists u. destruct (Hsel u (HU u Hu)). done.
    + intros r Hr. apply list_elem_of_fmap in Hr as (v & -> & Hv). simpl.
      split; [|done]. apply HL. by apply (subseteq_drop (length U) L).
Qed.

(** X19: the comparison of the records with the wanted values does not
    depend on the order of either list, and it finds agreement only between
    lists of the same length. *)
Theorem mismatch_ignores_order (ttl : Z) (records records' : list DNSRecord)
    (values values' : list pair_value) :
  records ≡ₚ records' → values ≡ₚ values' →
  mismatch_of ttl records values = mismatch_of ttl records' values'
  ∧ (mismatch_of ttl records values = false → length records = length values).
Proof.
  intros Hr Hv. split.
  - destruct (mismatch_of ttl records' values') eqn:Hm.
    + apply mismatch_of_true. apply mismatch_of_true in Hm.
      intros [Ht Hp]. apply Hm. split; [by rewrite <- Hr|]. by rewrite <- Hr, <- Hv.
    + apply mismatch_of_false. apply mismatch_of_false in Hm as [Ht Hp].
      split; [by rewrite Hr|]. by rewrite Hr, Hv.
  - intros [_ Hp]%mismatch_of_false. apply Permutation_length in Hp.
    by rewrite length_fmap in Hp.
Qed.

Lemma mismatch_ignores_order_witness :
  mismatch_of 3600 [sample 1 3600 "1.1.1.1"; sample 2 3600 "2.2.2.2"]
    [(None, Some "1.1.1.1"); (None, Some "2.2.2.2")]
  = mismatch_of 3600 [sample 2 3600 "2.2.2.2"; sample 1 3600 "1.1.1.1"]
      [(None, Some "1.1.1.1"); (None, Some "2.2.2.2")]
  ∧ (mismatch_of 3600 [sample 1 3600 "1.1.1.1"; sample 2 3600 "2.2.2.2"]
       [(None, Some "1.1.1.1"); (None, Some "2.2.2.2")] = false →
     length [sample 1 3600 "1.1.1.1"; sample 2 3600 "2.2.2.2"]
     = length ([(None, Some "1.1.1.1"); (None, Some "2.2.2.2")] : list pair_value)).
Proof.
  apply mismatch_ignores_order; [apply Permutation_swap|reflexivity].
Defined.

Lemma find_space_digits u : ∀ t,
  Py.find " " (NilEmpty.string_of_uint u +:+ String " " t)
  = Some (String.length (NilEmpty.string_of_uint u)).
Proof. induction u; intros t; simpl; try done; by rewrite IHu. Qed.

Lemma find_space_int (z : Z) (t : string) :
  Py.find " " (Py.str_of_int z +:+ String " " t) = Some (String.length (Py.str_of_int z)).
Proof.
  unfold Py.str_of_int. destruct z as [|p|p]; simpl; [done|..].
  all: pose proof (to_uint_not_nil p);
    assert (NilZero.string_of_uint (Pos.to_uint p) = NilEmpty.string_of_uint (Pos.to_uint p))
      as -> by (by destruct (Pos.to_uint p)).
  - apply find_space_digits.
  - by rewrite find_space_digits.
Qed.

